(** * Cork MongoDB backend: tables over a document store with a side cache

    A shallow embedding of [cork/mongodb_backend.py].  The module keeps three
    dictionary-like tables over MongoDB collections and one process-wide
    [Memcache] helper ([_MC]).  Python objects that are mutated in place
    (the dict handed to [__setitem__], the [MongoMutableDict] returned by
    [__getitem__]) live in an explicit heap; the collections and the cache
    hold copies, as the drivers serialise what they are given.

    The two drivers (pymongo, python-memcached) are outside the module; they
    are modelled by the narrow interface the module uses: point lookup,
    upsert, delete and scan of a collection, and get/set/delete of the cache
    client.  The cache client records the calls it receives.

    Scope of the model: keys are strings (logins, role names, registration
    codes), so the namespaced cache key is the prefix followed by the key;
    field values are scalars; the store answers writes (the [MongoClient]
    default), keeps the [_id] of a replaced document and refuses to change
    it; cache entries do not expire and every string is an acceptable cache
    key; a generator is observed by running it to its end. *)

From stdpp Require Import gmap strings list fin_maps.

Open Scope string_scope.
Open Scope list_scope.

(** ** Values *)

(** Field values of a document: Python scalars and the store's ObjectId. *)
Inductive scalar :=
  | SNone
  | SBool (b : bool)
  | SInt (z : Z)
  | SStr (s : string)
  | SOid (n : nat).

#[global] Instance scalar_eq_dec : EqDecision scalar.
Proof. solve_decision. Defined.

(** A document (a Python [dict] with string keys). *)
Abbreviation record := (gmap string scalar).

(** Exceptions the module lets escape. *)
Inductive exn :=
  | KeyError (k : string)
  | AssertionError
  | AttributeError
  | OperationFailure
  | RecursionError.

#[global] Instance exn_eq_dec : EqDecision exn.
Proof. solve_decision. Defined.

Inductive outcome (A : Type) :=
  | Ok (a : A)
  | Raise (e : exn).
Arguments Ok {A} a.
Arguments Raise {A} e.

Definition outcome_bind {A B} (o : outcome A) (f : A → outcome B) : outcome B :=
  match o with
  | Ok a => f a
  | Raise e => Raise e
  end.

(** ** Tables and heap objects *)

Inductive table_class := SingleValue | MultiValue.

#[global] Instance table_class_eq_dec : EqDecision table_class.
Proof. solve_decision. Defined.

(** [MongoTable.__init__]: name, key field and collection handle; the class
    of the instance decides which [__getitem__]/[__setitem__] it has. *)
Record table := Table {
  _class : table_class;
  _name : string;
  _key_name : string;
  _coll : string
}.

#[global] Instance table_eq_dec : EqDecision table.
Proof. solve_decision. Defined.

(** [self._mc_prefix = '{0}{1}'.format(self._name, self._key_name)] *)
Definition _mc_prefix (t : table) : string := _name t +:+ _key_name t.

Abbreviation loc := nat.

(** Dict objects of the heap: a plain [dict], or a [MongoMutableDict] with
    its [_parent] table and [_root_key]. *)
Inductive pyobj :=
  | Dict (d : record)
  | MutableDict (_parent : table) (_root_key : string) (d : record).

Definition items (o : pyobj) : record :=
  match o with
  | Dict d => d
  | MutableDict _ _ d => d
  end.

Definition with_items (o : pyobj) (d : record) : pyobj :=
  match o with
  | Dict _ => Dict d
  | MutableDict p k _ => MutableDict p k d
  end.

(** What a caller passes to, and gets from, a table: a scalar or a reference
    to a dict object. *)
Inductive pyval :=
  | PScalar (s : scalar)
  | PRef (l : loc).

(** ** The cache client (python-memcached) *)

Inductive mc_call :=
  | McGet (k : string)
  | McSet (k : string) (v : record) (time : Z)
  | McDelete (k : string).

(** Entries held by the cache service, and the calls received so far (most
    recent first). *)
Record Client := MkClient {
  entries : gmap string record;
  calls : list mc_call
}.

(** The [Memcache] helper: [decay] and the [cache] handle, [None] until
    [connect] is given a host and a port. *)
Record Memcache := MkMemcache {
  decay : Z;
  cache : option Client
}.

(** ** The document store (pymongo collection) *)

Module Collection.

Definition matches (f : string) (v : scalar) (d : record) : bool :=
  bool_decide (d !! f = Some v).

(** [find_one({f: v})]: the first matching document. *)
Fixpoint find_one (c : list record) (f : string) (v : scalar) : option record :=
  match c with
  | [] => None
  | d :: c' => if matches f v d then Some d else find_one c' f v
  end.

Definition find (c : list record) : list record := c.

Definition count (c : list record) : nat := length c.

(** [remove({f: v})]: every matching document goes. *)
Definition remove (c : list record) (f : string) (v : scalar) : list record :=
  List.filter (λ d, negb (matches f v d)) c.

Definition oid_of (d : record) : nat :=
  match d !! "_id" with
  | Some (SOid n) => n
  | _ => 0
  end.

(** An ObjectId no document of the collection carries. *)
Definition new_oid (c : list record) : nat :=
  S (foldr (λ d m, Nat.max (oid_of d) m) 0 c).

Definition has_id (c : list record) (i : scalar) : bool :=
  existsb (matches "_id" i) c.

(** A replacement keeps the [_id] of the document it replaces; the store
    refuses a replacement that carries another one. *)
Definition replace_doc (old data : record) : outcome record :=
  match data !! "_id", old !! "_id" with
  | Some i, Some j => if decide (i = j) then Ok data else Raise OperationFailure
  | None, Some j => Ok (<["_id" := j]> data)
  | _, None => Ok data
  end.

Fixpoint replace (c : list record) (f : string) (v : scalar) (data : record)
  : outcome (list record) :=
  match c with
  | [] => Ok []
  | d :: c' =>
      if matches f v d
      then outcome_bind (replace_doc d data) (λ d', Ok (d' :: c'))
      else outcome_bind (replace c' f v data) (λ r, Ok (d :: r))
  end.

(** A new document gets a fresh [_id] unless it brings its own, which must
    not be taken. *)
Definition insert (c : list record) (data : record) : outcome (list record) :=
  match data !! "_id" with
  | Some i => if has_id c i then Raise OperationFailure else Ok (c ++ [data])
  | None => Ok (c ++ [<["_id" := SOid (new_oid c)]> data])
  end.

(** [update({f: v}, data, upsert=True)] with a replacement document. *)
Definition update (c : list record) (f : string) (v : scalar) (data : record)
  : outcome (list record) :=
  match find_one c f v with
  | Some _ => replace c f v data
  | None => insert c data
  end.

End Collection.

(** ** The world and the monad of the module's methods *)

Record world := World {
  heap : list pyobj;
  db : gmap string (list record);
  _MC : Memcache
}.

Definition M (A : Type) : Type := world → outcome A * world.

#[global] Instance M_ret : MRet M := λ A a w, (Ok a, w).

#[global] Instance M_bind : MBind M := λ A B f m w,
  match m w with
  | (Ok a, w') => f a w'
  | (Raise e, w') => (Raise e, w')
  end.

Definition raise {A} (e : exn) : M A := λ w, (Raise e, w).

Definition assert (b : bool) : M unit :=
  if b then mret () else raise AssertionError.

Definition lift {A} (o : outcome A) : M A := λ w, (o, w).

Definition skip : M unit := mret tt.

Definition miss : M (option (gmap string scalar)) := mret None.

(** Reading and writing the components of the world. *)
Definition coll_of (t : table) (w : world) : list record := db w !!! _coll t.

Definition get_coll (t : table) : M (list record) := λ w, (Ok (coll_of t w), w).

Definition put_coll (t : table) (c : list record) : M unit := λ w,
  (Ok (), World (heap w) (<[_coll t := c]> (db w)) (_MC w)).

Definition deref (l : loc) : M (option pyobj) := λ w, (Ok (heap w !! l), w).

Definition store (l : loc) (o : pyobj) : M unit := λ w,
  (Ok (), World (<[l := o]> (heap w)) (db w) (_MC w)).

Definition alloc (o : pyobj) : M loc := λ w,
  (Ok (length (heap w)), World (heap w ++ [o]) (db w) (_MC w)).

(** ** Memcache *)

Module Memcache.

(** [connect]: a client is created only when both host and port are given. *)
Definition connect (host : option string) (port : option Z) (d : Z)
    (mc : Memcache) : Memcache :=
  match host, port with
  | Some h, Some p =>
      if bool_decide (h ≠ "") && bool_decide (p ≠ 0%Z)
      then MkMemcache d (Some (MkClient ∅ []))
      else mc
  | _, _ => mc
  end.

(** ['{0}{1}'.format(prefix or '', key)] *)
Definition key (k : string) (prefix : option string) : string :=
  default "" prefix +:+ k.

Definition with_client (w : world) (c : Client) : world :=
  World (heap w) (db w) (MkMemcache (decay (_MC w)) (Some c)).

(** The three accessors dereference [self.cache] without a guard. *)
Definition get (k : string) (prefix : option string) : M (option record) := λ w,
  match cache (_MC w) with
  | None => (Raise AttributeError, w)
  | Some c =>
      let nk := key k prefix in
      (Ok (entries c !! nk),
       with_client w (MkClient (entries c) (McGet nk :: calls c)))
  end.

Definition set (k : string) (v : record) (prefix : option string) : M unit := λ w,
  match cache (_MC w) with
  | None => (Raise AttributeError, w)
  | Some c =>
      let nk := key k prefix in
      (Ok (),
       with_client w (MkClient (<[nk := v]> (entries c))
                               (McSet nk v (decay (_MC w)) :: calls c)))
  end.

Definition delete (k : string) (prefix : option string) : M unit := λ w,
  match cache (_MC w) with
  | None => (Raise AttributeError, w)
  | Some c =>
      let nk := key k prefix in
      (Ok (),
       with_client w (MkClient (base.delete nk (entries c))
                               (McDelete nk :: calls c)))
  end.

End Memcache.

(** [if _MC.cache: m else: d] *)
Definition cache_on : M bool := λ w, (Ok (bool_decide (is_Some (cache (_MC w)))), w).

Definition if_cache {A} (m d : M A) : M A :=
  cache_on ≫= λ on : bool, if on then m else d.

Definition coll_find_one (t : table) (k : string) : M (option record) :=
  c ← get_coll t; mret (Collection.find_one c (_key_name t) (SStr k)).

Definition coll_update (t : table) (k : string) (data : record) : M unit :=
  c ← get_coll t;
  c' ← lift (Collection.update c (_key_name t) (SStr k) data);
  put_coll t c'.

Definition coll_remove (t : table) (k : string) : M unit :=
  c ← get_coll t; put_coll t (Collection.remove c (_key_name t) (SStr k)).

(** ** MongoSingleValueTable *)

Module MongoSingleValueTable.

(** A reference is a dict and is refused; a scalar is stored under ['val']
    next to the key field (a dict display: the later key wins). *)
Definition __setitem__ (self : table) (key_val : string) (data : pyval) : M unit :=
  match data with
  | PRef _ => raise AssertionError
  | PScalar s =>
      let data := <["val" := s]> {[_key_name self := SStr key_val]} in
      coll_update self key_val data;;
      if_cache (Memcache.delete key_val (Some (_mc_prefix self))) skip
  end.

Definition __getitem__ (self : table) (key_val : string) : M pyval :=
  r ← if_cache (Memcache.get key_val (Some (_mc_prefix self))) miss;
  r ← (match r with None => coll_find_one self key_val | Some _ => mret r end);
  match r with
  | None => raise (KeyError key_val)
  | Some d =>
      if_cache (Memcache.set key_val d (Some (_mc_prefix self))) skip;;
      match d !! "val" with
      | Some v => mret (PScalar v)
      | None => raise (KeyError "val")
      end
  end.

End MongoSingleValueTable.

(** ** The two [__setitem__] that call each other *)

(** [MongoMultiValueTable.__setitem__] assigns [data[key_name] = key_val]
    when the dict has no key field.  On a plain dict that is
    [dict.__setitem__]; on a [MongoMutableDict] it is
    [MongoMutableDict.__setitem__], which ends in
    [self._parent[self._root_key] = self], the [__setitem__] of a table
    again.  The bodies take the [__setitem__] of tables as a parameter and
    the knot is tied on the depth of nested calls, which the interpreter
    bounds. *)

(** [sys.getrecursionlimit()] *)
Definition recursion_limit : nat := 1000.

(** The body of [MongoMutableDict.__setitem__]: [dict.__setitem__] on the
    object itself, then the whole object is written back through
    [_parent]. *)
Definition setitem_MutableDict (table_setitem : table → string → pyval → M unit)
    (self : loc) (k : string) (v : scalar) : M unit :=
  o ← deref self;
  match o with
  | Some (MutableDict parent root_key d) =>
      store self (MutableDict parent root_key (<[k := v]> d));;
      table_setitem parent root_key (PRef self)
  | Some (Dict d) =>
      store self (Dict (<[k := v]> d));;
      raise AttributeError
  | None => raise AttributeError
  end.

(** [data[k] = v], resolved by the class of the object [data]. *)
Definition assign_item (table_setitem : table → string → pyval → M unit)
    (data : loc) (k : string) (v : scalar) : M unit :=
  o ← deref data;
  match o with
  | Some (Dict d) => store data (Dict (<[k := v]> d))
  | _ => setitem_MutableDict table_setitem data k v
  end.

(** The body of [MongoMultiValueTable.__setitem__]: the key field is checked
    when the dict has it and assigned in the caller's dict object when it
    has not; the store receives the items of that object. *)
Definition setitem_MultiValue (table_setitem : table → string → pyval → M unit)
    (self : table) (key_val : string) (data : pyval) : M unit :=
  match data with
  | PScalar _ => raise AssertionError
  | PRef l =>
      o ← deref l;
      match o with
      | None => raise AssertionError
      | Some o =>
          let key_name := _key_name self in
          match items o !! key_name with
          | Some x => assert (bool_decide (x = SStr key_val))
          | None => assign_item table_setitem l key_name (SStr key_val)
          end;;
          o ← deref l;
          coll_update self key_val (from_option items ∅ o);;
          if_cache (Memcache.delete key_val (Some (_mc_prefix self))) skip
      end
  end.

(** [table[key_val] = data] with [depth] nested calls left, resolved by the
    class of the table. *)
Fixpoint setitem_at (depth : nat) (self : table) (key_val : string) (data : pyval)
  : M unit :=
  match depth with
  | 0 => raise RecursionError
  | S depth =>
      match _class self with
      | SingleValue => MongoSingleValueTable.__setitem__ self key_val data
      | MultiValue => setitem_MultiValue (setitem_at depth) self key_val data
      end
  end.

(** ** MongoMultiValueTable *)

Module MongoMultiValueTable.

Definition __setitem__ (self : table) (key_val : string) (data : pyval) : M unit :=
  setitem_MultiValue (setitem_at recursion_limit) self key_val data.

Definition __getitem__ (self : table) (key_val : string) : M pyval :=
  r ← if_cache (Memcache.get key_val (Some (_mc_prefix self))) miss;
  r ← (match r with None => coll_find_one self key_val | Some _ => mret r end);
  match r with
  | None => raise (KeyError key_val)
  | Some d =>
      if_cache (Memcache.set key_val d (Some (_mc_prefix self))) skip;;
      l ← alloc (MutableDict self key_val d);
      mret (PRef l)
  end.

End MongoMultiValueTable.

(** [self[key_val]] and [self[key_val] = data] on a table, resolved by the
    class of the instance. *)
Definition getitem (self : table) (key_val : string) : M pyval :=
  match _class self with
  | SingleValue => MongoSingleValueTable.__getitem__ self key_val
  | MultiValue => MongoMultiValueTable.__getitem__ self key_val
  end.

Definition setitem (self : table) (key_val : string) (data : pyval) : M unit :=
  match _class self with
  | SingleValue => MongoSingleValueTable.__setitem__ self key_val data
  | MultiValue => MongoMultiValueTable.__setitem__ self key_val data
  end.

(** ** MongoTable *)

Module MongoTable.

Definition __len__ (self : table) : M nat :=
  c ← get_coll self; mret (Collection.count c).

Definition __contains__ (self : table) (value : string) : M bool :=
  r ← if_cache (Memcache.get value (Some (_mc_prefix self))) miss;
  r ← (match r with None => coll_find_one self value | Some _ => mret r end);
  match r with
  | Some d =>
      if_cache (Memcache.set value d (Some (_mc_prefix self))) skip;;
      mret true
  | None => mret false
  end.

(** [i[self._key_name]] *)
Definition key_of (key_name : string) (i : record) : outcome scalar :=
  match i !! key_name with
  | Some x => Ok x
  | None => Raise (KeyError key_name)
  end.

(** [d.pop(f)] on a dict: the dict without [f], or KeyError. *)
Definition dict_pop (f : string) (d : record) : outcome record :=
  match d !! f with
  | Some _ => Ok (base.delete f d)
  | None => Raise (KeyError f)
  end.

(** One round of the loop of [iteritems]. *)
Definition item (key_name : string) (i : record) : outcome (scalar * record) :=
  let d := i in
  outcome_bind (dict_pop key_name d) (λ d,
  outcome_bind (dict_pop "_id" d) (λ d,
  outcome_bind (key_of key_name i) (λ k, Ok (k, d)))).

(** What the generators yield when they are run to their end. *)
Fixpoint run_gen {A B} (f : A → outcome B) (r : list A) : outcome (list B) :=
  match r with
  | [] => Ok []
  | i :: r' =>
      outcome_bind (f i) (λ x,
      outcome_bind (run_gen f r') (λ xs, Ok (x :: xs)))
  end.

Definition __iter__ (self : table) : M (list scalar) :=
  c ← get_coll self;
  lift (run_gen (key_of (_key_name self)) (Collection.find c)).

Definition iteritems (self : table) : M (list (scalar * record)) :=
  c ← get_coll self;
  lift (run_gen (item (_key_name self)) (Collection.find c)).

Definition pop (self : table) (key_val : string) : M pyval :=
  r ← getitem self key_val;
  coll_remove self key_val;;
  if_cache (Memcache.delete key_val (Some (_mc_prefix self))) skip;;
  mret r.

End MongoTable.

(** ** MongoMutableDict *)

Module MongoMutableDict.

Definition __setitem__ (self : loc) (k : string) (v : scalar) : M unit :=
  setitem_MutableDict setitem self k v.

End MongoMutableDict.

(** ** MongoDBBackend *)

Module MongoDBBackend.

Definition users : table :=
  Table MultiValue "users" "login" "users".

Definition pending_registrations : table :=
  Table MultiValue "pending_registrations" "pending_registration"
        "pending_registrations".

Definition roles : table :=
  Table SingleValue "roles" "role" "roles".

(** [__init__] connects the shared [_MC] when a cache host and port are
    given; the tables are the three above. *)
Definition __init__ (memcache_host : option string) (memcache_port : option Z)
    (memcache_decay : Z) (w : world) : world :=
  World (heap w) (db w)
        (Memcache.connect memcache_host memcache_port memcache_decay (_MC w)).

End MongoDBBackend.

(** [_MC = Memcache()] and an empty database. *)
Definition world0 : world := World [] ∅ (MkMemcache 300 None).

(** * Observations and statements *)

(** ** What a table sees of the world *)

(** The namespaced cache key of [k] in table [t]. *)
Definition ns (t : table) (k : string) : string :=
  Memcache.key k (Some (_mc_prefix t)).

(** The cache entry of [k], when a cache is configured and holds one. *)
Definition cached (w : world) (t : table) (k : string) : option record :=
  cache (_MC w) ≫= λ c, entries c !! ns t k.

(** The document the store finds for [k]. *)
Definition stored (w : world) (t : table) (k : string) : option record :=
  Collection.find_one (coll_of t w) (_key_name t) (SStr k).

(** Cache first, then the store. *)
Definition lookup_doc (w : world) (t : table) (k : string) : option record :=
  match cached w t k with
  | Some d => Some d
  | None => stored w t k
  end.

(** The cache entry of [k], if any, is the stored document. *)
Definition coherent_at (w : world) (t : table) (k : string) : Prop :=
  ∀ d, cached w t k = Some d → stored w t k = Some d.

(** The calls the cache client has received. *)
Definition mc_calls (w : world) : list mc_call :=
  from_option calls [] (cache (_MC w)).

Definition mc_entries (w : world) : gmap string record :=
  from_option entries ∅ (cache (_MC w)).

(** ** The world after a step *)

(** The world after a guarded cache access, a collection write, a heap
    write. *)
Definition on_client (f : Client → Client) (w : world) : world :=
  World (heap w) (db w) (MkMemcache (decay (_MC w)) (f <$> cache (_MC w))).

Definition mc_got (t : table) (k : string) : world → world :=
  on_client (λ c, MkClient (entries c) (McGet (ns t k) :: calls c)).

Definition mc_put (t : table) (k : string) (d : record) (w : world) : world :=
  on_client (λ c, MkClient (<[ns t k := d]> (entries c))
                           (McSet (ns t k) d (decay (_MC w)) :: calls c)) w.

Definition mc_del (t : table) (k : string) : world → world :=
  on_client (λ c, MkClient (delete (ns t k) (entries c))
                           (McDelete (ns t k) :: calls c)).

Definition with_coll (t : table) (c : list record) (w : world) : world :=
  World (heap w) (<[_coll t := c]> (db w)) (_MC w).

Definition with_heap (h : list pyobj) (w : world) : world :=
  World h (db w) (_MC w).

(** How the store holds a document it was given: as it is, or with the
    [_id] the store chose when the document brought none. *)
Definition stored_as (data d : record) : Prop :=
  d = data ∨ (data !! "_id" = None ∧ ∃ j, d = <["_id" := j]> data).

(** The common tail of both [__setitem__]: upsert, then invalidate. *)
Definition written (t : table) (k : string) (data : record) (w : world)
  : outcome unit * world :=
  match Collection.update (coll_of t w) (_key_name t) (SStr k) data with
  | Ok c' => (Ok (), mc_del t k (with_coll t c' w))
  | Raise e => (Raise e, w)
  end.

(** The value [getitem] hands back for document [d]. *)
Definition value_of (t : table) (k : string) (d : record) (w : world) (x : pyval)
  : Prop :=
  match _class t with
  | SingleValue => ∃ v, d !! "val" = Some v ∧ x = PScalar v
  | MultiValue => ∃ l, x = PRef l ∧ heap w !! l = Some (MutableDict t k d)
  end.

(** What a view with items [d] holds once its parent table has taken it
    back: the parent's key field, if it was missing. *)
Definition parent_keyed (parent : table) (root_key : string) (d : record) : record :=
  match _class parent, d !! _key_name parent with
  | MultiValue, None => <[_key_name parent := SStr root_key]> d
  | _, _ => d
  end.

(** The object the caller passed, after [table[k] = data]: it gains the key
    field of the table when it has none, and a view without the key field of
    its parent gains that one too. *)
Definition injected (t : table) (k : string) (o : pyobj) : pyobj :=
  match items o !! _key_name t with
  | Some _ => o
  | None =>
      match o with
      | Dict d => Dict (<[_key_name t := SStr k]> d)
      | MutableDict parent root_key d =>
          MutableDict parent root_key
            (parent_keyed parent root_key (<[_key_name t := SStr k]> d))
      end
  end.

(** [parent[root_key] = view] for the view at [l], which holds [d]: the
    write-back at the end of [MongoMutableDict.__setitem__]. *)
Definition view_written (parent : table) (root_key : string) (l : loc)
    (d : record) (w : world) : outcome unit * world :=
  match _class parent with
  | SingleValue => (Raise AssertionError, w)
  | MultiValue =>
      match d !! _key_name parent with
      | Some x =>
          if bool_decide (x = SStr root_key) then written parent root_key d w
          else (Raise AssertionError, w)
      | None =>
          let d2 := <[_key_name parent := SStr root_key]> d in
          let w' := with_heap (<[l := MutableDict parent root_key d2]> (heap w)) w in
          match written parent root_key d2 w' with
          | (Ok _, w2) => written parent root_key d2 w2
          | (Raise e, w2) => (Raise e, w2)
          end
      end
  end.

(** [table[k] = data] of a multi-value table for the dict object [o] at
    [l]. *)
Definition multi_written (t : table) (k : string) (l : loc) (o : pyobj) (w : world)
  : outcome unit * world :=
  match items o !! _key_name t with
  | Some x =>
      if bool_decide (x = SStr k) then written t k (items o) w
      else (Raise AssertionError, w)
  | None =>
      let d1 := <[_key_name t := SStr k]> (items o) in
      let w1 := with_heap (<[l := with_items o d1]> (heap w)) w in
      match o with
      | Dict _ => written t k d1 w1
      | MutableDict parent root_key _ =>
          match view_written parent root_key l d1 w1 with
          | (Ok _, w2) => written t k (parent_keyed parent root_key d1) w2
          | (Raise e, w2) => (Raise e, w2)
          end
      end
  end.

(** The world after the cache was asked to delete the keys [ks], the first
    of the list last. *)
Definition mc_dels (ks : list string) (w : world) : world :=
  foldr (λ nk, on_client (λ c, MkClient (delete nk (entries c))
                                        (McDelete nk :: calls c))) w ks.

(** [table[k] = r] reaches [MongoMutableDict.__setitem__]: [r] is a view
    that lacks the key field of the table. *)
Definition dispatches (w : world) (t : table) (r : pyval) : Prop :=
  ∃ l parent root_key d,
    r = PRef l ∧ heap w !! l = Some (MutableDict parent root_key d) ∧
    d !! _key_name t = None.

(** The cache keys [table[k] = r] deletes before its own, the latest first:
    none unless [r] is a view that lacks the key field of the table; then
    the write-back of the view deletes the entry of the view in its parent
    table, twice when the view lacks the key field of the parent too. *)
Definition parent_deletes (w : world) (t : table) (k : string) (r : pyval)
  : list string :=
  match r with
  | PScalar _ => []
  | PRef l =>
      match heap w !! l with
      | Some (MutableDict parent root_key d) =>
          match d !! _key_name t with
          | Some _ => []
          | None =>
              match <[_key_name t := SStr k]> d !! _key_name parent with
              | Some _ => [ns parent root_key]
              | None => [ns parent root_key; ns parent root_key]
              end
          end
      | _ => []
      end
  end.

(** ** Statements *)

(** A single-value table keeps its value under ['val']; its key field is
    another field. *)
Definition well_keyed (t : table) : Prop :=
  _class t = SingleValue → _key_name t ≠ "val".

(** The value [x] read in world [w'] gives back what was passed as [r] in
    world [w]: the same scalar, or a view of the caller's dict.  The dict
    object the caller holds is then the one passed with the key field
    assigned ([injected]); the document read is that object as the store
    keeps it (with the store's [_id] when the dict brought none), so it has
    every field that was passed, with the same value, and the key field. *)
Definition round_trip (t : table) (k : string)
    (w : world) (r : pyval) (w' : world) (x : pyval) : Prop :=
  match r, x with
  | PScalar a, PScalar b => a = b
  | PRef l, PRef l' =>
      ∃ o o', heap w !! l = Some o ∧ heap w' !! l = Some (injected t k o) ∧
        heap w' !! l' = Some o' ∧
        stored_as (items (injected t k o)) (items o') ∧
        items o ⊆ items o' ∧
        items o' !! _key_name t = Some (SStr k)
  | _, _ => False
  end.

(** The calls the cache client received between two worlds. *)
Definition new_calls (w w' : world) : list mc_call :=
  take (length (mc_calls w') - length (mc_calls w)) (mc_calls w').

Definition is_write (e : mc_call) : bool :=
  match e with
  | McSet _ _ _ => true
  | _ => false
  end.

(** The reading as first stated: a read served from the cache sends the cache
    no write. *)
Definition no_write_on_hit (t : table) (k : string) (w : world) : Prop :=
  is_Some (cached w t k) →
  existsb is_write (new_calls w (snd (getitem t k w))) = false.

(** The reading as first stated: whatever field is assigned on the view that
    [get(k)] returned, the next [get(k)] shows the assigned value. *)
Definition view_assignment_reflected
    (t : table) (k f : string) (v : scalar) (w : world) : Prop :=
  ∀ l w1 o w2,
    MongoMultiValueTable.__getitem__ t k w = (Ok (PRef l), w1) →
    MongoMutableDict.__setitem__ l f v w1 = (o, w2) →
    ∃ l' w3 o',
      MongoMultiValueTable.__getitem__ t k w2 = (Ok (PRef l'), w3) ∧
      heap w3 !! l' = Some o' ∧ items o' !! f = Some v.

(** Every document has the key field and the [_id] the store gave it. *)
Definition coll_ok (key_name : string) (c : list record) : Prop :=
  Forall (λ d, is_Some (d !! key_name) ∧ is_Some (d !! "_id")) c.

(** The unguarded accessors of [Memcache] were not reached: no AttributeError
    came out and the cache handle is still unset. *)
Definition cache_untouched {A} (r : outcome A * world) : Prop :=
  r.1 ≠ Raise AttributeError ∧ cache (_MC r.2) = None.

(** ** Scenario worlds *)

(** A connected cache, and the caller's dict for alice at location 0. *)
Definition alice : record :=
  {[ "login" := SStr "alice"; "email" := SStr "a@x.com" ]}.

(** The document the store holds for alice in [scenario1]. *)
Definition alice_doc : record := <["_id" := SOid 1]> alice.

Definition scenario0 : world :=
  snd (alloc (Dict alice)
         (MongoDBBackend.__init__ (Some "localhost") (Some 11211%Z) 300 world0)).

(** [users["alice"] = alice] *)
Definition scenario1 : world :=
  snd (setitem MongoDBBackend.users "alice" (PRef 0) scenario0).

(** [users["alice"]], which leaves the view at location 1 and the document
    in the cache. *)
Definition scenario2 : world :=
  snd (getitem MongoDBBackend.users "alice" scenario1).

(** [pending_registrations["code"] = users["alice"]]: the view at location 1
    has no key field of the table it is given to, so the assignment of that
    field goes through the view and writes it back to users on the way. *)
Definition scenario3 : world :=
  snd (setitem MongoDBBackend.pending_registrations "code" (PRef 1) scenario2).

(** ** The rest of the module *)

(** [Memcache.__init__]: the handle is unset, then [connect] is tried. *)
Definition Memcache__init__ (host : option string) (port : option Z) (d : Z)
  : Memcache :=
  Memcache.connect host port d (MkMemcache d None).

(** [save_users], [save_roles], [save_pending_registrations]: [pass]. *)
Definition save_users : M unit := skip.
Definition save_roles : M unit := skip.
Definition save_pending_registrations : M unit := skip.

(** ** Further statements *)

(** Every key of the table is coherent. *)
Definition coherent (t : table) (w : world) : Prop :=
  ∀ k, coherent_at w t k.

(** How many documents carry the value [v] in the field [f]. *)
Definition key_count (f : string) (v : scalar) (c : list record) : nat :=
  length (List.filter (Collection.matches f v) c).

(** At most one document for each value of the field [f]. *)
Definition unique_keys (f : string) (c : list record) : Prop :=
  ∀ v, (key_count f v c ≤ 1)%nat.

(** ** Further scenario worlds *)

(** Two tables over different collections whose name and key field
    concatenate to the same prefix. *)
Definition table_a_bc : table := Table MultiValue "a" "bc" "A".
Definition table_ab_c : table := Table MultiValue "ab" "c" "B".

(** [table_a_bc["k"] = alice] *)
Definition shared_prefix_world : world :=
  snd (setitem table_a_bc "k" (PRef 0) scenario0).

(** A single-value table whose key field is named ['val']. *)
Definition table_val : table := Table SingleValue "flags" "val" "flags".

(** A single-value table over the collection of users, whose documents have
    no ['val']. *)
Definition users_as_single : table := Table SingleValue "users" "login" "users".

(** A collection with one document that has no key field. *)
Definition keyless_world : world :=
  World [] {[ "users" := [ {[ "_id" := SOid 1; "email" := SStr "x@x.com" ]} ] ]}
        (MkMemcache 300 None).

(** * Properties *)

(** ** The document store *)

Section collection.
Import Collection.
Implicit Types (c : list record) (d data : record) (f : string) (v : scalar).

Lemma stored_as_lookup data d f v :
  stored_as data d → data !! f = Some v → d !! f = Some v.
Proof.
  intros [-> | [Hid [j ->]]] Hf; [done |].
  rewrite lookup_insert_ne; [done | congruence].
Qed.

Lemma stored_as_subseteq data d : stored_as data d → data ⊆ d.
Proof.
  intros [-> | [Hid [j ->]]]; [done |]. by apply insert_subseteq.
Qed.

Lemma stored_as_other data d f :
  stored_as data d → f ≠ "_id" → d !! f = data !! f.
Proof.
  intros [-> | [Hid [j ->]]] Hf; [done |]. by rewrite lookup_insert_ne.
Qed.

Lemma matches_true f v d : matches f v d = true ↔ d !! f = Some v.
Proof. unfold matches. by rewrite bool_decide_eq_true. Qed.

Lemma matches_false f v d : matches f v d = false ↔ d !! f ≠ Some v.
Proof. unfold matches. by rewrite bool_decide_eq_false. Qed.

Lemma find_one_Some c f v d :
  find_one c f v = Some d → d !! f = Some v ∧ d ∈ c.
Proof.
  induction c as [| d0 c IH]; simpl; [done |].
  destruct (matches f v d0) eqn:Hm.
  - intros [= ->]. split; [by apply matches_true | by left].
  - intros H. destruct (IH H) as [? ?]. split; [done | by right].
Qed.

Lemma find_one_None c f v :
  find_one c f v = None ↔ Forall (λ d, d !! f ≠ Some v) c.
Proof.
  induction c as [| d0 c IH]; simpl.
  - split; [constructor | done].
  - destruct (matches f v d0) eqn:Hm.
    + split; [done |]. intros H. apply Forall_cons in H as [H _].
      by apply matches_true in Hm.
    + rewrite IH. apply matches_false in Hm. split.
      * by constructor.
      * intros H. by apply Forall_cons in H as [_ H].
Qed.

Lemma find_one_app c c2 f v :
  find_one (c ++ c2) f v =
    match find_one c f v with Some d => Some d | None => find_one c2 f v end.
Proof.
  induction c as [| d0 c IH]; simpl; [done |].
  by destruct (matches f v d0).
Qed.

Lemma replace_doc_stored_as old data d :
  replace_doc old data = Ok d → stored_as data d.
Proof.
  unfold replace_doc, stored_as.
  destruct (data !! "_id") as [i |] eqn:Hd, (old !! "_id") as [j |] eqn:Ho;
    try (intros [= <-]; by left).
  - case_decide; [intros [= <-]; by left | done].
  - intros [= <-]. right. eauto.
Qed.

Lemma replace_find_one c f v data c' :
  is_Some (find_one c f v) → data !! f = Some v →
  replace c f v data = Ok c' →
  ∃ d0 d, find_one c f v = Some d0 ∧ replace_doc d0 data = Ok d ∧
          find_one c' f v = Some d.
Proof.
  intros Hs Hdata. revert c' Hs.
  induction c as [| d0 c IH]; simpl; intros c' Hs.
  - by destruct Hs.
  - destruct (matches f v d0) eqn:Hm.
    + destruct (replace_doc d0 data) as [d |] eqn:Hr; simpl; [| done].
      intros [= <-]. exists d0, d. split_and!; [done.. |]. simpl.
      apply replace_doc_stored_as in Hr.
      apply (stored_as_lookup _ _ _ _ Hr), matches_true in Hdata.
      by rewrite Hdata.
    + destruct (replace c f v data) as [r |] eqn:Hr; simpl; [| done].
      intros [= <-]. destruct (IH r Hs eq_refl) as (d1 & d & ? & ? & ?).
      exists d1, d. split_and!; [done.. |]. simpl. by rewrite Hm.
Qed.

Lemma replace_find_one_ne c f v v' data c' :
  data !! f = Some v → v' ≠ v →
  replace c f v data = Ok c' → find_one c' f v' = find_one c f v'.
Proof.
  intros Hdata Hne. revert c'.
  induction c as [| d0 c IH]; simpl; intros c'.
  - by intros [= <-].
  - destruct (matches f v d0) eqn:Hm.
    + destruct (replace_doc d0 data) as [d |] eqn:Hr; simpl; [| done].
      intros [= <-]. simpl.
      apply replace_doc_stored_as in Hr.
      pose proof (stored_as_lookup _ _ _ _ Hr Hdata) as Hd.
      apply matches_true in Hm.
      assert (matches f v' d = false) as ->
        by (apply matches_false; congruence).
      assert (matches f v' d0 = false) as ->
        by (apply matches_false; congruence).
      done.
    + destruct (replace c f v data) as [r |] eqn:Hr; simpl; [| done].
      intros [= <-]. simpl. by rewrite (IH r eq_refl).
Qed.

Lemma insert_find_one c f v data c' :
  find_one c f v = None → data !! f = Some v →
  insert c data = Ok c' →
  ∃ d, stored_as data d ∧ find_one c' f v = Some d.
Proof.
  intros Hnone Hdata. unfold insert.
  destruct (data !! "_id") as [i |] eqn:Hid.
  - destruct (has_id c i); [done |]. intros [= <-].
    exists data. split; [by left |].
    rewrite find_one_app, Hnone. simpl.
    apply matches_true in Hdata. by rewrite Hdata.
  - intros [= <-]. eexists. split; [right; eauto |].
    rewrite find_one_app, Hnone. simpl.
    assert (f ≠ "_id") by congruence.
    assert (matches f v (<["_id" := SOid (new_oid c)]> data) = true) as ->; [| done].
    apply matches_true. by rewrite lookup_insert_ne.
Qed.

Lemma insert_find_one_ne c f v v' data c' :
  data !! f = Some v → v' ≠ v →
  insert c data = Ok c' → find_one c' f v' = find_one c f v'.
Proof.
  intros Hdata Hne Hins.
  assert (∃ d, stored_as data d ∧ c' = c ++ [d]) as (d & Hd & ->).
  { unfold insert in Hins. destruct (data !! "_id") as [i |] eqn:Hid.
    - destruct (has_id c i); [done |]. injection Hins as <-.
      exists data. split; [by left | done].
    - injection Hins as <-. eexists. split; [right; eauto | done]. }
  rewrite find_one_app. destruct (find_one c f v'); [done |]. simpl.
  pose proof (stored_as_lookup _ _ _ _ Hd Hdata).
  assert (matches f v' d = false) as ->; [| done].
  apply matches_false. congruence.
Qed.

(** After an upsert the key finds the document that was given. *)
Lemma update_find_one c f v data c' :
  data !! f = Some v → update c f v data = Ok c' →
  ∃ d, stored_as data d ∧ find_one c' f v = Some d.
Proof.
  intros Hdata. unfold update.
  destruct (find_one c f v) as [d0 |] eqn:Hf; intros Hu.
  - destruct (replace_find_one c f v data c') as (d1 & d & _ & Hr & Hfo); [by eauto | done.. |].
    exists d. split; [by eapply replace_doc_stored_as | done].
  - by eapply insert_find_one.
Qed.

(** Other keys are not disturbed by an upsert. *)
Lemma update_find_one_ne c f v v' data c' :
  data !! f = Some v → v' ≠ v →
  update c f v data = Ok c' → find_one c' f v' = find_one c f v'.
Proof.
  intros Hdata Hne. unfold update.
  destruct (find_one c f v); intros Hu.
  - by eapply replace_find_one_ne.
  - by eapply insert_find_one_ne.
Qed.

Lemma find_one_remove c f v : find_one (remove c f v) f v = None.
Proof.
  apply find_one_None, Forall_forall. intros d Hd.
  apply list_elem_of_In, filter_In in Hd as [_ Hd].
  apply negb_true_iff in Hd. by apply matches_false.
Qed.

Lemma find_one_remove_ne c f v v' :
  v' ≠ v → find_one (remove c f v) f v' = find_one c f v'.
Proof.
  intros Hne. induction c as [| d0 c IH]; simpl; [done |].
  destruct (matches f v d0) eqn:Hm; simpl.
  - rewrite IH. apply matches_true in Hm.
    assert (matches f v' d0 = false) as ->; [| done].
    apply matches_false. congruence.
  - by rewrite IH.
Qed.

End collection.

Section run.
Implicit Types (t : table) (k : string) (w : world) (d : record).

Lemma bind_run {A B} (m : M A) (f : A → M B) w :
  (m ≫= f) w =
    match m w with
    | (Ok a, w') => f a w'
    | (Raise e, w') => (Raise e, w')
    end.
Proof. reflexivity. Qed.

Lemma ret_run {A} (a : A) w : (mret a : M A) w = (Ok a, w).
Proof. reflexivity. Qed.

Lemma on_client_off f w : cache (_MC w) = None → on_client f w = w.
Proof. destruct w as [h b [dc c]]; simpl. by intros ->. Qed.

Lemma if_cache_get t k w :
  if_cache (Memcache.get k (Some (_mc_prefix t))) miss w
  = (Ok (cached w t k), mc_got t k w).
Proof. by destruct w as [h b [dc [c |]]]. Qed.

Lemma if_cache_set t k d w :
  if_cache (Memcache.set k d (Some (_mc_prefix t))) skip w
  = (Ok (), mc_put t k d w).
Proof. by destruct w as [h b [dc [c |]]]. Qed.

Lemma if_cache_delete t k w :
  if_cache (Memcache.delete k (Some (_mc_prefix t))) skip w
  = (Ok (), mc_del t k w).
Proof. by destruct w as [h b [dc [c |]]]. Qed.

Lemma find_one_run t k w : coll_find_one t k w = (Ok (stored w t k), w).
Proof. reflexivity. Qed.

Lemma update_run t k data w :
  coll_update t k data w =
    match Collection.update (coll_of t w) (_key_name t) (SStr k) data with
    | Ok c' => (Ok (), with_coll t c' w)
    | Raise e => (Raise e, w)
    end.
Proof.
  unfold coll_update. rewrite bind_run. simpl. rewrite bind_run. unfold lift.
  by destruct (Collection.update _ _ _ _).
Qed.

Lemma update_invalidate_run t k data w :
  (coll_update t k data;; if_cache (Memcache.delete k (Some (_mc_prefix t))) skip) w
  = written t k data w.
Proof.
  rewrite bind_run, update_run. unfold written.
  destruct (Collection.update _ _ _ _); [| done]. by rewrite if_cache_delete.
Qed.

(** *** The methods, as functions of the world *)

Lemma single_setitem_scalar t k s w :
  MongoSingleValueTable.__setitem__ t k (PScalar s) w
  = written t k (<["val" := s]> {[_key_name t := SStr k]}) w.
Proof. apply update_invalidate_run. Qed.

Lemma written_heap t k data w : heap (snd (written t k data w)) = heap w.
Proof. unfold written. by destruct (Collection.update _ _ _ _). Qed.

(** With the key field in the dict, nothing is assigned. *)
Lemma setitem_MultiValue_present f t k l o x w :
  heap w !! l = Some o → items o !! _key_name t = Some x →
  setitem_MultiValue f t k (PRef l) w =
    if bool_decide (x = SStr k) then written t k (items o) w
    else (Raise AssertionError, w).
Proof.
  intros Hl Hk. unfold setitem_MultiValue.
  rewrite bind_run. unfold deref at 1. rewrite Hl.
  rewrite bind_run, Hk. unfold assert. case_bool_decide; [| done].
  rewrite ret_run, bind_run. unfold deref. rewrite Hl. simpl from_option.
  apply update_invalidate_run.
Qed.

(** The write-back of a view needs two nested calls at most. *)
Lemma setitem_at_view n parent root_key l d w :
  heap w !! l = Some (MutableDict parent root_key d) →
  setitem_at (S (S n)) parent root_key (PRef l) w
  = view_written parent root_key l d w.
Proof.
  intros Hl. unfold view_written.
  change (setitem_at (S (S n)) parent root_key (PRef l) w) with
    (match _class parent with
     | SingleValue => MongoSingleValueTable.__setitem__ parent root_key (PRef l)
     | MultiValue =>
         setitem_MultiValue (setitem_at (S n)) parent root_key (PRef l)
     end w).
  destruct (_class parent) eqn:Hc; [done |].
  destruct (d !! _key_name parent) as [x |] eqn:Hk.
  { by rewrite (setitem_MultiValue_present _ _ _ _ _ _ _ Hl Hk). }
  unfold setitem_MultiValue.
  rewrite bind_run. unfold deref at 1. rewrite Hl.
  rewrite bind_run.
  change (items (MutableDict parent root_key d)) with d. rewrite Hk.
  unfold assign_item. rewrite bind_run. unfold deref at 1. rewrite Hl.
  unfold setitem_MutableDict. rewrite bind_run. unfold deref at 1. rewrite Hl.
  rewrite bind_run. unfold store at 1.
  set (d2 := <[_key_name parent := SStr root_key]> d).
  set (w' := World _ (db w) (_MC w)).
  assert (heap w' !! l = Some (MutableDict parent root_key d2)) as Hl'.
  { unfold w'. simpl. apply list_lookup_insert_eq. by eapply lookup_lt_Some. }
  change (with_heap (<[l := MutableDict parent root_key d2]> (heap w)) w) with w'.
  assert (setitem_at (S n) parent root_key (PRef l) w'
          = written parent root_key d2 w') as ->.
  { change (setitem_at (S n) parent root_key (PRef l) w') with
      (match _class parent with
       | SingleValue => MongoSingleValueTable.__setitem__ parent root_key (PRef l)
       | MultiValue =>
           setitem_MultiValue (setitem_at n) parent root_key (PRef l)
       end w').
    rewrite Hc.
    rewrite (setitem_MultiValue_present _ _ _ _ _ (SStr root_key) _ Hl')
      by apply lookup_insert_eq.
    by rewrite bool_decide_eq_true_2. }
  pose proof (written_heap parent root_key d2 w') as Hh.
  destruct (written parent root_key d2 w') as [[[] | e] w2]; [| done].
  change (heap w2 = heap w') in Hh.
  rewrite bind_run. unfold deref. rewrite Hh, Hl'. simpl from_option.
  apply update_invalidate_run.
Qed.

Lemma view_written_heap parent root_key l d w :
  heap w !! l = Some (MutableDict parent root_key d) →
  heap (snd (view_written parent root_key l d w))
  = <[l := MutableDict parent root_key (parent_keyed parent root_key d)]> (heap w).
Proof.
  intros Hl. unfold view_written, parent_keyed.
  destruct (_class parent); [by rewrite list_insert_id |].
  destruct (d !! _key_name parent) as [x |].
  - case_bool_decide; [rewrite written_heap |]; by rewrite list_insert_id.
  - simpl.
    pose proof (written_heap parent root_key
      (<[_key_name parent := SStr root_key]> d)
      (with_heap (<[l := MutableDict parent root_key
                      (<[_key_name parent := SStr root_key]> d)]> (heap w)) w)) as Hh.
    destruct (written parent root_key _ (with_heap _ w)) as [[[] | e] w2];
      simpl in Hh; [| done].
    by rewrite written_heap.
Qed.

(** [MongoMultiValueTable.__setitem__] on a dict object of the heap, with
    two nested calls or more left for the write-back of a view. *)
Lemma setitem_MultiValue_run n t k l o w :
  heap w !! l = Some o →
  setitem_MultiValue (setitem_at (S (S n))) t k (PRef l) w
  = multi_written t k l o w.
Proof.
  intros Hl. unfold multi_written.
  destruct (items o !! _key_name t) as [x |] eqn:Hk.
  { by rewrite (setitem_MultiValue_present _ _ _ _ _ _ _ Hl Hk). }
  unfold setitem_MultiValue.
  rewrite bind_run. unfold deref at 1. rewrite Hl.
  rewrite bind_run, Hk.
  unfold assign_item. rewrite bind_run. unfold deref at 1. rewrite Hl.
  destruct o as [d | parent root_key d]; simpl items in *; simpl with_items.
  - unfold store at 1. rewrite bind_run. unfold deref. simpl heap.
    rewrite list_lookup_insert_eq by (by eapply lookup_lt_Some).
    simpl from_option. apply update_invalidate_run.
  - unfold setitem_MutableDict. rewrite bind_run. unfold deref at 1. rewrite Hl.
    rewrite bind_run. unfold store at 1.
    set (d1 := <[_key_name t := SStr k]> d).
    set (w1 := World _ (db w) (_MC w)).
    assert (heap w1 !! l = Some (MutableDict parent root_key d1)) as Hl1.
    { unfold w1. simpl. apply list_lookup_insert_eq. by eapply lookup_lt_Some. }
    change (with_heap (<[l := MutableDict parent root_key d1]> (heap w)) w) with w1.
    rewrite (setitem_at_view _ _ _ _ _ _ Hl1).
    pose proof (view_written_heap _ _ _ _ _ Hl1) as Hh.
    destruct (view_written parent root_key l d1 w1) as [[[] | e] w2]; [| done].
    change (heap w2 = <[l := MutableDict parent root_key
                             (parent_keyed parent root_key d1)]> (heap w1)) in Hh.
    rewrite bind_run. unfold deref. rewrite Hh.
    rewrite list_lookup_insert_eq by (by eapply lookup_lt_Some).
    simpl from_option. apply update_invalidate_run.
Qed.

Lemma setitem_MultiValue_dangling f t k l w :
  heap w !! l = None →
  setitem_MultiValue f t k (PRef l) w = (Raise AssertionError, w).
Proof.
  intros Hl. unfold setitem_MultiValue.
  rewrite bind_run. unfold deref. by rewrite Hl.
Qed.

Lemma recursion_limit_view : recursion_limit = S (S 998).
Proof. reflexivity. Qed.

Lemma multi_setitem_run t k l o w :
  heap w !! l = Some o →
  MongoMultiValueTable.__setitem__ t k (PRef l) w = multi_written t k l o w.
Proof.
  unfold MongoMultiValueTable.__setitem__. rewrite recursion_limit_view.
  apply setitem_MultiValue_run.
Qed.

(** Three nested calls are all a [table[k] = r] ever makes: with that many
    or more, the depth left makes no difference. *)
Lemma setitem_at_enough n t k r w :
  setitem_at (S (S (S n))) t k r w = setitem t k r w.
Proof.
  change (setitem_at (S (S (S n))) t k r w) with
    (match _class t with
     | SingleValue => MongoSingleValueTable.__setitem__ t k r
     | MultiValue => setitem_MultiValue (setitem_at (S (S n))) t k r
     end w).
  unfold setitem. destruct (_class t); [done |].
  destruct r as [s | l]; [done |].
  unfold MongoMultiValueTable.__setitem__.
  destruct (heap w !! l) as [o |] eqn:Hl.
  - rewrite recursion_limit_view. by rewrite !(setitem_MultiValue_run _ _ _ _ _ _ Hl).
  - by rewrite !setitem_MultiValue_dangling.
Qed.

Lemma multi_written_heap t k l o w :
  heap w !! l = Some o →
  heap (snd (multi_written t k l o w)) = <[l := injected t k o]> (heap w).
Proof.
  intros Hl. unfold multi_written, injected.
  destruct (items o !! _key_name t) as [x |].
  - case_bool_decide; [rewrite written_heap |]; by rewrite list_insert_id.
  - cbv zeta. set (d1 := <[_key_name t := SStr k]> (items o)).
    destruct o as [d | parent root_key d]; simpl with_items.
    + by rewrite written_heap.
    + set (w1 := with_heap _ w).
      assert (heap w1 !! l = Some (MutableDict parent root_key d1)) as Hl1.
      { unfold w1. simpl. apply list_lookup_insert_eq. by eapply lookup_lt_Some. }
      pose proof (view_written_heap _ _ _ _ _ Hl1) as Hh.
      destruct (view_written parent root_key l d1 w1) as [[[] | e] w2].
      * rewrite written_heap. simpl in Hh. rewrite Hh. unfold w1. simpl.
        by rewrite list_insert_insert_eq.
      * simpl in *. rewrite Hh. unfold w1. simpl.
        by rewrite list_insert_insert_eq.
Qed.

(** When the assignment of the key field stays in the dict object. *)
Lemma multi_setitem_ref t k l o w :
  heap w !! l = Some o →
  ¬ dispatches w t (PRef l) →
  MongoMultiValueTable.__setitem__ t k (PRef l) w =
    match items o !! _key_name t with
    | Some x =>
        if bool_decide (x = SStr k) then written t k (items o) w
        else (Raise AssertionError, w)
    | None =>
        let data := <[_key_name t := SStr k]> (items o) in
        written t k data (with_heap (<[l := with_items o data]> (heap w)) w)
    end.
Proof.
  intros Hl Hnd. rewrite (multi_setitem_run _ _ _ _ _ Hl). unfold multi_written.
  destruct (items o !! _key_name t) as [x |] eqn:Hk; [done |].
  destruct o as [d | parent root_key d]; [done |].
  exfalso. apply Hnd. by exists l, parent, root_key, d.
Qed.

Lemma not_dispatches_present w t l o :
  heap w !! l = Some o → is_Some (items o !! _key_name t) →
  ¬ dispatches w t (PRef l).
Proof.
  intros Hl [x Hx] (l' & parent & root_key & d & [= <-] & Hl' & Hd).
  rewrite Hl in Hl'. injection Hl' as ->. simpl in Hx. congruence.
Qed.

Lemma not_dispatches_plain w t l d :
  heap w !! l = Some (Dict d) → ¬ dispatches w t (PRef l).
Proof.
  intros Hl (l' & parent & root_key & d' & [= <-] & Hl' & _). congruence.
Qed.

Lemma not_dispatches_scalar w t s : ¬ dispatches w t (PScalar s).
Proof. by intros (l' & parent & root_key & d' & ? & _). Qed.

Lemma multi_setitem_dangling t k l w :
  heap w !! l = None →
  MongoMultiValueTable.__setitem__ t k (PRef l) w = (Raise AssertionError, w).
Proof. apply setitem_MultiValue_dangling. Qed.

Lemma single_getitem_run t k w :
  MongoSingleValueTable.__getitem__ t k w =
    match lookup_doc w t k with
    | None => (Raise (KeyError k), mc_got t k w)
    | Some d =>
        (match d !! "val" with
         | Some v => Ok (PScalar v)
         | None => Raise (KeyError "val")
         end, mc_put t k d (mc_got t k w))
    end.
Proof.
  unfold MongoSingleValueTable.__getitem__, lookup_doc.
  rewrite bind_run, if_cache_get, bind_run.
  assert (stored (mc_got t k w) t k = stored w t k) as Hs by done.
  destruct (cached w t k) as [d |].
  - rewrite ret_run, bind_run, if_cache_set. by destruct (d !! "val").
  - rewrite find_one_run, Hs. destruct (stored w t k) as [d |]; [| done].
    rewrite bind_run, if_cache_set. by destruct (d !! "val").
Qed.

Lemma multi_getitem_run t k w :
  MongoMultiValueTable.__getitem__ t k w =
    match lookup_doc w t k with
    | None => (Raise (KeyError k), mc_got t k w)
    | Some d =>
        let w' := mc_put t k d (mc_got t k w) in
        (Ok (PRef (length (heap w))),
         with_heap (heap w ++ [MutableDict t k d]) w')
    end.
Proof.
  unfold MongoMultiValueTable.__getitem__, lookup_doc.
  rewrite bind_run, if_cache_get, bind_run.
  assert (stored (mc_got t k w) t k = stored w t k) as Hs by done.
  destruct (cached w t k) as [d |].
  - by rewrite ret_run, bind_run, if_cache_set.
  - rewrite find_one_run, Hs. destruct (stored w t k) as [d |]; [| done].
    by rewrite bind_run, if_cache_set.
Qed.

Lemma contains_run t k w :
  MongoTable.__contains__ t k w =
    match lookup_doc w t k with
    | None => (Ok false, mc_got t k w)
    | Some d => (Ok true, mc_put t k d (mc_got t k w))
    end.
Proof.
  unfold MongoTable.__contains__, lookup_doc.
  rewrite bind_run, if_cache_get, bind_run.
  assert (stored (mc_got t k w) t k = stored w t k) as Hs by done.
  destruct (cached w t k) as [d |].
  - by rewrite ret_run, bind_run, if_cache_set.
  - rewrite find_one_run, Hs. destruct (stored w t k) as [d |]; [| done].
    by rewrite bind_run, if_cache_set.
Qed.

Lemma pop_run t k w :
  MongoTable.pop t k w =
    match getitem t k w with
    | (Ok r, w') =>
        (Ok r, mc_del t k
                 (with_coll t (Collection.remove (coll_of t w') (_key_name t) (SStr k)) w'))
    | (Raise e, w') => (Raise e, w')
    end.
Proof.
  unfold MongoTable.pop. rewrite bind_run.
  destruct (getitem t k w) as [[r | e] w']; [| done].
  rewrite bind_run. unfold coll_remove at 1. rewrite bind_run. simpl.
  by rewrite bind_run, if_cache_delete.
Qed.

End run.

(** ** Reading the world after a step *)

Section frames.
Implicit Types (t : table) (k : string) (w : world) (d : record).

Lemma cached_mc_got t k t' k' w : cached (mc_got t k w) t' k' = cached w t' k'.
Proof. unfold cached. simpl. by destruct (cache (_MC w)). Qed.

Lemma cached_mc_put t k d w :
  cached (mc_put t k d w) t k = cache (_MC w) ≫= λ _, Some d.
Proof.
  unfold cached. simpl. destruct (cache (_MC w)); simpl; [| done].
  apply lookup_insert_eq.
Qed.

Lemma cached_mc_del t k w : cached (mc_del t k w) t k = None.
Proof.
  unfold cached. simpl. destruct (cache (_MC w)); simpl; [| done].
  apply lookup_delete_eq.
Qed.

Lemma stored_with_coll t k c w :
  stored (with_coll t c w) t k = Collection.find_one c (_key_name t) (SStr k).
Proof. unfold stored, coll_of. simpl. by rewrite lookup_total_insert_eq. Qed.

Lemma coll_of_with_coll t c w : coll_of t (with_coll t c w) = c.
Proof. unfold coll_of. simpl. by rewrite lookup_total_insert_eq. Qed.

Lemma cache_on_client f w : cache (_MC (on_client f w)) = f <$> cache (_MC w).
Proof. reflexivity. Qed.

Lemma mc_calls_got t k w :
  mc_calls (mc_got t k w) =
    match cache (_MC w) with Some _ => McGet (ns t k) :: mc_calls w | None => [] end.
Proof. unfold mc_calls. simpl. by destruct (cache (_MC w)). Qed.

Lemma mc_calls_put t k d w :
  mc_calls (mc_put t k d w) =
    match cache (_MC w) with Some _ => McSet (ns t k) d (decay (_MC w)) :: mc_calls w | None => [] end.
Proof. unfold mc_calls. simpl. by destruct (cache (_MC w)). Qed.

Lemma mc_calls_del t k w :
  mc_calls (mc_del t k w) =
    match cache (_MC w) with Some _ => McDelete (ns t k) :: mc_calls w | None => [] end.
Proof. unfold mc_calls. simpl. by destruct (cache (_MC w)). Qed.

Lemma mc_entries_got t k w : mc_entries (mc_got t k w) = mc_entries w.
Proof. unfold mc_entries. simpl. by destruct (cache (_MC w)). Qed.

Lemma mc_entries_put t k d w :
  mc_entries (mc_put t k d w) =
    match cache (_MC w) with Some _ => <[ns t k := d]> (mc_entries w) | None => ∅ end.
Proof. unfold mc_entries. simpl. by destruct (cache (_MC w)). Qed.

Lemma mc_entries_del t k w :
  mc_entries (mc_del t k w) = delete (ns t k) (mc_entries w).
Proof.
  unfold mc_entries. simpl. destruct (cache (_MC w)); simpl; [done |].
  by rewrite delete_empty.
Qed.

(** A found document stays found after the read has refreshed the cache. *)
Lemma lookup_doc_refreshed t k d w :
  lookup_doc w t k = Some d →
  lookup_doc (mc_put t k d (mc_got t k w)) t k = Some d.
Proof.
  unfold lookup_doc. rewrite cached_mc_put. simpl.
  intros Hl. unfold cached in Hl.
  destruct (cache (_MC w)) as [c |]; simpl in *; [done |].
  exact Hl.
Qed.

Lemma coherent_lookup_doc t k d w :
  stored w t k = Some d → coherent_at w t k → lookup_doc w t k = Some d.
Proof.
  intros Hs Hc. unfold lookup_doc.
  destruct (cached w t k) as [d' |] eqn:Hd; [| done].
  rewrite <- Hs. symmetry. by apply Hc.
Qed.

(** *** A write *)

Lemma written_ok t k data w w1 :
  data !! _key_name t = Some (SStr k) →
  written t k data w = (Ok (), w1) →
  ∃ c' d, Collection.update (coll_of t w) (_key_name t) (SStr k) data = Ok c' ∧
    w1 = mc_del t k (with_coll t c' w) ∧
    stored_as data d ∧ stored w1 t k = Some d ∧ cached w1 t k = None.
Proof.
  intros Hk. unfold written.
  destruct (Collection.update _ _ _ _) as [c' |] eqn:Hu; [| done].
  intros [= <-].
  destruct (update_find_one _ _ _ _ _ Hk Hu) as (d & Hd & Hf).
  exists c', d. split_and!; [done.. | | apply cached_mc_del].
  change (stored (mc_del t k (with_coll t c' w)) t k)
    with (stored (with_coll t c' w) t k).
  by rewrite stored_with_coll.
Qed.

(** *** A read that finds the key *)

Lemma getitem_found t k d w :
  lookup_doc w t k = Some d →
  (_class t = SingleValue → is_Some (d !! "val")) →
  ∃ x w2, getitem t k w = (Ok x, w2) ∧ value_of t k d w2 x ∧
    db w2 = db w ∧ _MC w2 = _MC (mc_put t k d (mc_got t k w)) ∧
    lookup_doc w2 t k = Some d.
Proof.
  intros Hl Hval. unfold getitem, value_of.
  destruct (_class t).
  - destruct Hval as [v Hv]; [done |].
    rewrite single_getitem_run, Hl, Hv.
    eexists _, _. split_and!; [done | by eauto | done.. |].
    by apply lookup_doc_refreshed.
  - rewrite multi_getitem_run, Hl. simpl.
    eexists _, _. split_and!; [done | | done.. |].
    + eexists. split; [done |]. simpl.
      by rewrite lookup_app_r, Nat.sub_diag.
    + by apply lookup_doc_refreshed.
Qed.

Lemma getitem_not_found t k w :
  lookup_doc w t k = None →
  getitem t k w = (Raise (KeyError k), mc_got t k w).
Proof.
  intros Hl. unfold getitem.
  destruct (_class t); [rewrite single_getitem_run | rewrite multi_getitem_run];
    by rewrite Hl.
Qed.

End frames.

(** ** Set, then get *)

Section set_get.
Implicit Types (t : table) (k : string) (w : world) (d : record).

Lemma cached_same_MC w w' t k : _MC w = _MC w' → cached w t k = cached w' t k.
Proof. unfold cached. by intros ->. Qed.

Lemma with_items_items o : with_items o (items o) = o.
Proof. by destruct o. Qed.

Lemma items_with_items o d : items (with_items o d) = d.
Proof. by destruct o. Qed.

Lemma parent_keyed_lookup parent root_key d f v :
  d !! f = Some v → parent_keyed parent root_key d !! f = Some v.
Proof.
  intros Hf. unfold parent_keyed. destruct (_class parent); [done |].
  destruct (d !! _key_name parent) eqn:Hp; [done |].
  rewrite lookup_insert_ne; [done | congruence].
Qed.

Lemma parent_keyed_subseteq parent root_key d :
  d ⊆ parent_keyed parent root_key d.
Proof.
  unfold parent_keyed. destruct (_class parent); [done |].
  destruct (d !! _key_name parent) eqn:Hp; [done |]. by apply insert_subseteq.
Qed.

Lemma items_injected_subseteq t k o : items o ⊆ items (injected t k o).
Proof.
  unfold injected. destruct (items o !! _key_name t) eqn:Hk; [done |].
  destruct o as [d | parent root_key d]; simpl in *.
  - by apply insert_subseteq.
  - etrans; [by apply insert_subseteq | apply parent_keyed_subseteq].
Qed.

(** The caller's object after a [table[k] = data] that stays in the dict. *)
Lemma items_injected_plain w t k l o :
  heap w !! l = Some o → ¬ dispatches w t (PRef l) →
  items o !! _key_name t = None →
  injected t k o = with_items o (<[_key_name t := SStr k]> (items o)).
Proof.
  intros Hl Hnd Hk. unfold injected. rewrite Hk.
  destruct o as [d | parent root_key d]; [done |].
  exfalso. apply Hnd. by exists l, parent, root_key, d.
Qed.

(** What a [setitem] that returned leaves behind: its last step wrote the
    caller's object, as it is after the call, under the key. *)
Lemma setitem_ok t k r w w1 :
  well_keyed t →
  setitem t k r w = (Ok (), w1) →
  ∃ data d w0,
    data !! _key_name t = Some (SStr k) ∧
    stored_as data d ∧ stored w1 t k = Some d ∧ cached w1 t k = None ∧
    written t k data w0 = (Ok (), w1) ∧
    match r with
    | PScalar s =>
        _class t = SingleValue ∧ heap w1 = heap w ∧ w0 = w ∧
        data = <["val" := s]> {[_key_name t := SStr k]}
    | PRef l =>
        _class t = MultiValue ∧
        ∃ o, heap w !! l = Some o ∧
             data = items (injected t k o) ∧
             heap w1 = <[l := injected t k o]> (heap w)
    end.
Proof.
  intros Hwk. unfold setitem. destruct (_class t) eqn:Hc.
  - destruct r as [s | l]; [| done].
    rewrite single_setitem_scalar. intros Hw.
    assert ((<["val" := s]> {[_key_name t := SStr k]} : record) !! _key_name t
            = Some (SStr k)) as Hk.
    { rewrite lookup_insert_ne by (by intros ?; apply Hwk).
      apply lookup_singleton_eq. }
    destruct (written_ok _ _ _ _ _ Hk Hw) as (c' & d & _ & Hw1 & Hd & Hs & Hca).
    eexists _, d, w. split_and!; [done.. | by rewrite Hw1 | done | done].
  - destruct r as [s | l]; [done |].
    destruct (heap w !! l) as [o |] eqn:Hl; [| by rewrite multi_setitem_dangling].
    rewrite (multi_setitem_run _ _ _ _ _ Hl). unfold multi_written.
    destruct (items o !! _key_name t) as [x |] eqn:Hx.
    + case_bool_decide as Hxk; [subst x | done]. intros Hset.
      destruct (written_ok _ _ _ _ _ Hx Hset) as (c' & d & _ & Hw1 & Hd & Hs & Hca).
      exists (items o), d, w. split_and!; [done.. |].
      exists o. unfold injected. rewrite Hx. split_and!; [done.. |].
      rewrite Hw1. simpl. by rewrite list_insert_id.
    + cbv zeta.
      set (d1 := <[_key_name t := SStr k]> (items o)).
      assert (d1 !! _key_name t = Some (SStr k)) as Hk by apply lookup_insert_eq.
      destruct o as [d0 | parent root_key d0]; simpl with_items.
      * intros Hset.
        destruct (written_ok _ _ _ _ _ Hk Hset) as (c' & d & _ & Hw1 & Hd & Hs & Hca).
        eexists d1, d, _. split_and!; [done.. |].
        exists (Dict d0). unfold injected. rewrite Hx.
        split_and!; [done.. |]. by rewrite Hw1.
      * set (w1' := with_heap _ w).
        assert (heap w1' !! l = Some (MutableDict parent root_key d1)) as Hl1.
        { unfold w1'. simpl. apply list_lookup_insert_eq. by eapply lookup_lt_Some. }
        pose proof (view_written_heap _ _ _ _ _ Hl1) as Hh.
        destruct (view_written parent root_key l d1 w1') as [[[] | e] w2]; [| done].
        change (heap w2 = <[l := MutableDict parent root_key
                                 (parent_keyed parent root_key d1)]> (heap w1'))
          in Hh.
        intros Hset.
        pose proof (parent_keyed_lookup parent root_key _ _ _ Hk) as Hk'.
        destruct (written_ok _ _ _ _ _ Hk' Hset) as (c' & d & _ & Hw1 & Hd & Hs & Hca).
        eexists _, d, w2. split_and!; [done.. |].
        eexists. unfold injected. rewrite Hx. split_and!; [done.. |].
        rewrite Hw1. simpl. rewrite Hh.
        unfold w1'. simpl. by rewrite list_insert_insert_eq.
Qed.

Lemma getitem_keeps_heap t k w l (o : pyobj) :
  heap w !! l = Some o → heap (snd (getitem t k w)) !! l = Some o.
Proof.
  intros Hl. unfold getitem.
  destruct (_class t); [rewrite single_getitem_run | rewrite multi_getitem_run].
  - destruct (lookup_doc w t k) as [d |]; [| done]. by destruct (d !! "val").
  - destruct (lookup_doc w t k) as [d |]; [| done]. simpl.
    by apply lookup_app_l_Some.
Qed.

Lemma value_of_round_trip t k r w w1 w2 data d x :
  data !! _key_name t = Some (SStr k) →
  stored_as data d →
  (∀ l (o : pyobj), heap w1 !! l = Some o → heap w2 !! l = Some o) →
  match r with
  | PScalar s =>
      _class t = SingleValue ∧ heap w1 = heap w ∧
      data = <["val" := s]> {[_key_name t := SStr k]}
  | PRef l =>
      _class t = MultiValue ∧
      ∃ o, heap w !! l = Some o ∧
           data = items (injected t k o) ∧
           heap w1 = <[l := injected t k o]> (heap w)
  end →
  value_of t k d w2 x → round_trip t k w r w2 x.
Proof.
  intros Hk Hd Hgrow Hr Hv. unfold value_of in Hv. unfold round_trip.
  destruct r as [s | l].
  - destruct Hr as (Hc & _ & ->). rewrite Hc in Hv.
    destruct Hv as (v & Hv & ->).
    rewrite (stored_as_lookup _ _ "val" s Hd) in Hv by apply lookup_insert_eq.
    congruence.
  - destruct Hr as (Hc & o & Hl & -> & Hh). rewrite Hc in Hv.
    destruct Hv as (l' & -> & Hl').
    exists o, (MutableDict t k d). simpl.
    pose proof (items_injected_subseteq t k o) as Hsub.
    split_and!; [done | | done | done | |].
    + apply Hgrow. rewrite Hh. apply list_lookup_insert_eq.
      by eapply lookup_lt_Some.
    + etrans; [done |]. by apply stored_as_subseteq.
    + by apply (stored_as_lookup _ _ _ _ Hd).
Qed.

End set_get.

(** C1. Round trip: after a successful [set(k, r)] a [get(k)] gives [r]
    back, field by field for a record and as the stored scalar for a
    single-value table; the first read finds no cache entry and is served by
    the store, and the next one, served by the cache when there is one,
    gives the same. *)
Theorem set_get_round_trip (t : table) (k : string) (r : pyval) (w w1 : world) :
  well_keyed t →
  setitem t k r w = (Ok (), w1) →
  ∃ x w2 y w3,
    cached w1 t k = None ∧
    getitem t k w1 = (Ok x, w2) ∧ round_trip t k w r w2 x ∧
    (is_Some (cache (_MC w1)) → is_Some (cached w2 t k)) ∧
    getitem t k w2 = (Ok y, w3) ∧ round_trip t k w r w3 y.
Proof.
  intros Hwk Hset.
  destruct (setitem_ok _ _ _ _ _ Hwk Hset)
    as (data & d & w0 & Hk & Hd & Hs & Hca & _ & Hr).
  assert (match r with
          | PScalar s =>
              _class t = SingleValue ∧ heap w1 = heap w ∧
              data = <["val" := s]> {[_key_name t := SStr k]}
          | PRef l =>
              _class t = MultiValue ∧
              ∃ o, heap w !! l = Some o ∧
                   data = items (injected t k o) ∧
                   heap w1 = <[l := injected t k o]> (heap w)
          end) as Hr'.
  { destruct r; [| done]. by destruct Hr as (? & ? & _ & ?). }
  assert (_class t = SingleValue → is_Some (d !! "val")) as Hval.
  { intros Hc. destruct r as [s | l]; [| destruct Hr; congruence].
    destruct Hr as (_ & _ & _ & ->). exists s.
    apply (stored_as_lookup _ _ _ _ Hd), lookup_insert_eq. }
  assert (lookup_doc w1 t k = Some d) as Hl1.
  { unfold lookup_doc. by rewrite Hca. }
  destruct (getitem_found _ _ _ _ Hl1 Hval) as (x & w2 & Hg1 & Hv1 & _ & HMC2 & Hl2).
  destruct (getitem_found _ _ _ _ Hl2 Hval) as (y & w3 & Hg2 & Hv2 & _ & _ & _).
  assert (∀ l (o : pyobj), heap w1 !! l = Some o → heap w2 !! l = Some o) as Hgrow1.
  { intros l o Hl. pose proof (getitem_keeps_heap t k w1 l o Hl) as H.
    by rewrite Hg1 in H. }
  assert (∀ l (o : pyobj), heap w2 !! l = Some o → heap w3 !! l = Some o) as Hgrow2.
  { intros l o Hl. pose proof (getitem_keeps_heap t k w2 l o Hl) as H.
    by rewrite Hg2 in H. }
  exists x, w2, y, w3. split_and!; [done.. | | | done |].
  - by eapply value_of_round_trip.
  - intros [c Hc]. rewrite (cached_same_MC _ _ _ _ HMC2), cached_mc_put.
    simpl. by rewrite Hc.
  - eapply value_of_round_trip; [done.. | | done | done]. auto.
Qed.

(** ** Absent keys *)

(** C2. A key with no document in the store and no cache entry is not
    contained, and reading it from either kind of table raises KeyError. *)
Theorem absent_key_not_found (t : table) (k : string) (w : world) :
  stored w t k = None → cached w t k = None →
  fst (MongoTable.__contains__ t k w) = Ok false ∧
  fst (MongoSingleValueTable.__getitem__ t k w) = Raise (KeyError k) ∧
  fst (MongoMultiValueTable.__getitem__ t k w) = Raise (KeyError k).
Proof.
  intros Hs Hc.
  assert (lookup_doc w t k = None) as Hl by (unfold lookup_doc; by rewrite Hc).
  rewrite contains_run, single_getitem_run, multi_getitem_run, Hl. done.
Qed.

(** ** Removal *)

Section pop.
Implicit Types (t : table) (k : string) (w : world) (d : record).

Lemma value_of_same_heap t k d w w' x :
  heap w' = heap w → value_of t k d w x → value_of t k d w' x.
Proof. unfold value_of. by intros ->. Qed.

Lemma coll_of_same_db t w w' : db w' = db w → coll_of t w' = coll_of t w.
Proof. unfold coll_of. by intros ->. Qed.

Lemma mc_calls_same_MC w w' : _MC w = _MC w' → mc_calls w = mc_calls w'.
Proof. unfold mc_calls. by intros ->. Qed.

Lemma mc_entries_same_MC w w' : _MC w = _MC w' → mc_entries w = mc_entries w'.
Proof. unfold mc_entries. by intros ->. Qed.

End pop.

(** C3. [pop] of a present key returns the stored value, removes the
    document, invalidates the cache entry and leaves the key not contained;
    [pop] of an absent key raises KeyError, leaves the collections and the
    cache entries as they were and asks the cache for nothing but the
    initial read. *)
Theorem pop_present_and_absent (t : table) (k : string) (w : world) :
  (∀ d, stored w t k = Some d → coherent_at w t k →
        (_class t = SingleValue → is_Some (d !! "val")) →
     ∃ x w',
       MongoTable.pop t k w = (Ok x, w') ∧ value_of t k d w' x ∧
       coll_of t w' = Collection.remove (coll_of t w) (_key_name t) (SStr k) ∧
       stored w' t k = None ∧ cached w' t k = None ∧
       (is_Some (cache (_MC w)) → head (mc_calls w') = Some (McDelete (ns t k))) ∧
       fst (MongoTable.__contains__ t k w') = Ok false) ∧
  (stored w t k = None → cached w t k = None →
     ∃ w',
       MongoTable.pop t k w = (Raise (KeyError k), w') ∧
       heap w' = heap w ∧ db w' = db w ∧ mc_entries w' = mc_entries w ∧
       mc_calls w' =
         match cache (_MC w) with
         | Some _ => McGet (ns t k) :: mc_calls w
         | None => []
         end).
Proof.
  split.
  - intros d Hs Hco Hval.
    pose proof (coherent_lookup_doc _ _ _ _ Hs Hco) as Hl.
    destruct (getitem_found _ _ _ _ Hl Hval) as (x & w2 & Hg & Hv & Hdb & HMC & _).
    rewrite pop_run, Hg. eexists _, _. split; [done |].
    assert (stored (mc_del t k (with_coll t
              (Collection.remove (coll_of t w2) (_key_name t) (SStr k)) w2)) t k
            = None) as Hgone.
    { change (stored (mc_del t k ?w0) t k) with (stored w0 t k).
      rewrite stored_with_coll. apply find_one_remove. }
    split_and!.
    + by eapply value_of_same_heap.
    + change (coll_of t (mc_del t k ?w0)) with (coll_of t w0).
      by rewrite coll_of_with_coll, (coll_of_same_db _ _ _ Hdb).
    + done.
    + apply cached_mc_del.
    + intros [c Hc]. rewrite mc_calls_del. simpl. rewrite HMC. simpl.
      by rewrite Hc.
    + rewrite contains_run. unfold lookup_doc. by rewrite cached_mc_del, Hgone.
  - intros Hs Hc.
    assert (lookup_doc w t k = None) as Hl by (unfold lookup_doc; by rewrite Hc).
    rewrite pop_run, (getitem_not_found _ _ _ Hl).
    eexists. split_and!; [done.. | apply mc_entries_got | apply mc_calls_got].
Qed.

(** ** Write-invalidate *)

Section invalidate.
Implicit Types (t : table) (k : string) (w : world) (d : record).

Lemma written_MC t k data w w1 :
  written t k data w = (Ok (), w1) → _MC w1 = _MC (mc_del t k w).
Proof.
  unfold written. destruct (Collection.update _ _ _ _); [| done].
  by intros [= <-].
Qed.

Lemma mc_dels_same_MC ks w w' :
  _MC w = _MC w' → _MC (mc_dels ks w) = _MC (mc_dels ks w').
Proof.
  intros H. induction ks as [| nk ks IH]; simpl; [done |].
  unfold on_client. simpl. by rewrite IH.
Qed.

Lemma written_dels t k data w w1 :
  written t k data w = (Ok (), w1) → _MC w1 = _MC (mc_dels [ns t k] w).
Proof. apply written_MC. Qed.

Lemma view_written_MC parent root_key l d w w2 :
  view_written parent root_key l d w = (Ok (), w2) →
  _MC w2 = _MC (mc_dels match d !! _key_name parent with
                        | Some _ => [ns parent root_key]
                        | None => [ns parent root_key; ns parent root_key]
                        end w).
Proof.
  unfold view_written. destruct (_class parent); [done |].
  destruct (d !! _key_name parent) as [x |].
  - case_bool_decide; [apply written_dels | done].
  - cbv zeta.
    destruct (written parent root_key _ (with_heap _ w)) as [[[] | e] w1] eqn:H1;
      [| done].
    intros H2. apply written_dels in H1, H2. rewrite H2.
    change (mc_dels [ns parent root_key; ns parent root_key] w)
      with (mc_dels [ns parent root_key] (mc_dels [ns parent root_key] w)).
    apply mc_dels_same_MC. by rewrite H1.
Qed.

(** The cache after a [setitem] that returned: deletes, nothing else. *)
Lemma setitem_MC t k r w w1 :
  setitem t k r w = (Ok (), w1) →
  _MC w1 = _MC (mc_dels (ns t k :: parent_deletes w t k r) w).
Proof.
  unfold setitem, parent_deletes. destruct (_class t).
  - destruct r as [s | l]; [| done].
    rewrite single_setitem_scalar. apply written_dels.
  - destruct r as [s | l]; [done |].
    destruct (heap w !! l) as [o |] eqn:Hl; [| by rewrite multi_setitem_dangling].
    rewrite (multi_setitem_run _ _ _ _ _ Hl). unfold multi_written.
    destruct o as [d | parent root_key d]; simpl items.
    + destruct (d !! _key_name t) as [x |].
      * case_bool_decide; [apply written_dels | done].
      * intros Hw. apply written_dels in Hw. rewrite Hw.
        by apply mc_dels_same_MC.
    + destruct (d !! _key_name t) as [x |].
      * case_bool_decide; [apply written_dels | done].
      * cbv zeta.
        destruct (view_written parent root_key l _ (with_heap _ w))
          as [[[] | e] w2] eqn:Hv; [| done].
        intros Hw. apply written_dels in Hw. apply view_written_MC in Hv.
        rewrite Hw.
        change (mc_dels (ns t k :: ?ks) w) with (mc_dels [ns t k] (mc_dels ks w)).
        apply mc_dels_same_MC. rewrite Hv. by apply mc_dels_same_MC.
Qed.

Lemma parent_deletes_plain w t k r :
  ¬ dispatches w t r → parent_deletes w t k r = [].
Proof.
  intros Hnd. unfold parent_deletes. destruct r as [s | l]; [done |].
  destruct (heap w !! l) as [[d | parent root_key d] |] eqn:Hl; [done | | done].
  destruct (d !! _key_name t) eqn:Hk; [done |].
  exfalso. apply Hnd. by exists l, parent, root_key, d.
Qed.

Lemma cached_mc_dels t k ks w : cached (mc_dels (ns t k :: ks) w) t k = None.
Proof. apply (cached_mc_del t k (mc_dels ks w)). Qed.

Lemma mc_entries_dels ks w :
  mc_entries (mc_dels ks w) = foldr delete (mc_entries w) ks.
Proof.
  induction ks as [| nk ks IH]; simpl; [done |]. rewrite <- IH.
  unfold mc_entries. simpl. destruct (cache (_MC (mc_dels ks w))); simpl; [done |].
  by rewrite delete_empty.
Qed.

Lemma cache_mc_dels_off ks w :
  cache (_MC (mc_dels ks w)) = None ↔ cache (_MC w) = None.
Proof.
  induction ks as [| nk ks IH]; simpl; [done |].
  rewrite <- IH. by destruct (cache (_MC (mc_dels ks w))).
Qed.

Lemma mc_calls_dels ks w :
  mc_calls (mc_dels ks w) =
    match cache (_MC w) with
    | Some _ => (McDelete <$> ks) ++ mc_calls w
    | None => []
    end.
Proof.
  induction ks as [| nk ks IH]; simpl.
  - unfold mc_calls. by destruct (cache (_MC w)).
  - pose proof (cache_mc_dels_off ks w) as Hoff.
    unfold mc_calls at 1. unfold mc_calls at 1 in IH. simpl.
    destruct (cache (_MC (mc_dels ks w))) as [c |]; simpl.
    + simpl in IH. destruct (cache (_MC w)) as [c0 |]; [by rewrite IH |].
      by destruct Hoff as [_ Hoff]; specialize (Hoff eq_refl).
    + destruct Hoff as [Hoff _]. by rewrite Hoff.
Qed.

End invalidate.

(** C4. Write-invalidate: a [set(k, r)] of either kind of table that
    returned has asked the cache for deletes only, the last of them for [k],
    so the cache holds no entry for [k] and the read that follows misses the
    cache and returns the value just written to the store.  The deletes
    before the last are those of the write-back of a view that lacked the key
    field of the table; otherwise the delete for [k] is the only one. *)
Theorem set_invalidates_cache (t : table) (k : string) (r : pyval) (w w1 : world) :
  setitem t k r w = (Ok (), w1) →
  cached w1 t k = None ∧
  mc_entries w1 = foldr delete (mc_entries w) (ns t k :: parent_deletes w t k r) ∧
  mc_calls w1 =
    match cache (_MC w) with
    | Some _ =>
        McDelete (ns t k) :: (McDelete <$> parent_deletes w t k r) ++ mc_calls w
    | None => []
    end ∧
  (¬ dispatches w t r → parent_deletes w t k r = []) ∧
  (well_keyed t →
   ∃ d x w2,
     stored w1 t k = Some d ∧ getitem t k w1 = (Ok x, w2) ∧
     value_of t k d w2 x ∧ round_trip t k w r w2 x).
Proof.
  intros Hset. pose proof (setitem_MC _ _ _ _ _ Hset) as HMC.
  split_and!.
  - rewrite (cached_same_MC _ _ _ _ HMC). apply cached_mc_dels.
  - rewrite (mc_entries_same_MC _ _ HMC). apply mc_entries_dels.
  - rewrite (mc_calls_same_MC _ _ HMC). by rewrite mc_calls_dels.
  - apply parent_deletes_plain.
  - intros Hwk.
    destruct (setitem_ok _ _ _ _ _ Hwk Hset)
      as (data & d & w0 & Hk & Hd & Hs & Hca & _ & Hr).
    assert (_class t = SingleValue → is_Some (d !! "val")) as Hval.
    { intros Hc. destruct r as [s | l]; [| destruct Hr; congruence].
      destruct Hr as (_ & _ & _ & ->). exists s.
      apply (stored_as_lookup _ _ _ _ Hd), lookup_insert_eq. }
    assert (lookup_doc w1 t k = Some d) as Hl1.
    { unfold lookup_doc. by rewrite Hca. }
    destruct (getitem_found _ _ _ _ Hl1 Hval) as (x & w2 & Hg1 & Hv1 & _).
    exists d, x, w2. split_and!; [done.. |].
    eapply value_of_round_trip; [done.. | | | done].
    + intros l o Hl. pose proof (getitem_keeps_heap t k w1 l o Hl) as H.
      by rewrite Hg1 in H.
    + destruct r; [| done]. by destruct Hr as (? & ? & _ & ?).
Qed.

(** ** Cache writes of a read *)

Lemma getitem_MC (t : table) (k : string) (w : world) :
  _MC (snd (getitem t k w)) =
    match lookup_doc w t k with
    | Some d => _MC (mc_put t k d (mc_got t k w))
    | None => _MC (mc_got t k w)
    end.
Proof.
  unfold getitem.
  destruct (_class t); [rewrite single_getitem_run | rewrite multi_getitem_run];
    by destruct (lookup_doc w t k).
Qed.

(** C5, as the code has it. With a cache configured, a read that finds the
    key, in the cache or in the store, asks the cache for the key and then
    writes the document it found under that key; on a cache hit this writes
    back what the cache already holds.  A read that finds nothing writes
    nothing. *)
Theorem get_refreshes_cache_when_found (t : table) (k : string) (w : world) :
  is_Some (cache (_MC w)) →
  let w' := snd (getitem t k w) in
  match lookup_doc w t k with
  | Some d =>
      mc_calls w' = McSet (ns t k) d (decay (_MC w)) :: McGet (ns t k) :: mc_calls w ∧
      mc_entries w' = <[ns t k := d]> (mc_entries w) ∧
      (is_Some (cached w t k) → mc_entries w' = mc_entries w)
  | None =>
      mc_calls w' = McGet (ns t k) :: mc_calls w ∧
      mc_entries w' = mc_entries w
  end.
Proof.
  intros [c Hc] w'. subst w'.
  pose proof (getitem_MC t k w) as HMC.
  destruct (lookup_doc w t k) as [d |] eqn:Hl.
  - rewrite (mc_calls_same_MC _ _ HMC), (mc_entries_same_MC _ _ HMC).
    rewrite mc_calls_put, mc_entries_put, mc_calls_got, mc_entries_got.
    simpl. rewrite Hc. split_and!; [done.. |].
    intros [d' Hd']. apply insert_id.
    unfold lookup_doc in Hl. rewrite Hd' in Hl. injection Hl as ->.
    unfold cached in Hd'. rewrite Hc in Hd'. simpl in Hd'.
    unfold mc_entries. by rewrite Hc.
  - rewrite (mc_calls_same_MC _ _ HMC), (mc_entries_same_MC _ _ HMC).
    rewrite mc_calls_got, mc_entries_got. by rewrite Hc.
Qed.

(** ** Argument checks of [__setitem__] *)

(** C6. A single-value table refuses a dict, a multi-value table refuses
    what is not a dict and a dict whose key field differs from the key; each
    raises AssertionError and leaves the world as it was. *)
Theorem setitem_rejects_invalid (t : table) (k : string) (w : world) :
  (∀ l, MongoSingleValueTable.__setitem__ t k (PRef l) w
        = (Raise AssertionError, w)) ∧
  (∀ s, MongoMultiValueTable.__setitem__ t k (PScalar s) w
        = (Raise AssertionError, w)) ∧
  (∀ l o x, heap w !! l = Some o →
            items o !! _key_name t = Some x → x ≠ SStr k →
            MongoMultiValueTable.__setitem__ t k (PRef l) w
            = (Raise AssertionError, w)).
Proof.
  split_and!; [done.. |].
  intros l o x Hl Hx Hne.
  rewrite (multi_setitem_run _ _ _ _ _ Hl). unfold multi_written.
  by rewrite Hx, bool_decide_eq_false_2.
Qed.

(** ** The mutable view *)

Section view.
Import Collection.
Implicit Types (t : table) (k : string) (w : world) (d data : record).

Lemma replace_doc_same_id old data :
  data !! "_id" = old !! "_id" → replace_doc old data = Ok data.
Proof.
  unfold replace_doc. intros ->.
  destruct (old !! "_id"); [| done]. by rewrite decide_True.
Qed.

Lemma replace_succeeds c f v d0 data d :
  find_one c f v = Some d0 → replace_doc d0 data = Ok d →
  ∃ c', replace c f v data = Ok c'.
Proof.
  induction c as [| d1 c IH]; simpl; [done |].
  destruct (matches f v d1).
  - intros [= ->] ->. simpl. eauto.
  - intros Hf Hr. destruct (IH Hf Hr) as [c' ->]. simpl. eauto.
Qed.

(** Writing back a document that keeps the key and the [_id] of the stored
    one replaces it as it is. *)
Lemma written_replaces t k d data w :
  stored w t k = Some d →
  data !! _key_name t = Some (SStr k) →
  data !! "_id" = d !! "_id" →
  ∃ w2, written t k data w = (Ok (), w2) ∧
        heap w2 = heap w ∧ stored w2 t k = Some data ∧ cached w2 t k = None.
Proof.
  intros Hs Hk Hid. unfold written, update. unfold stored in Hs. rewrite Hs.
  pose proof (replace_doc_same_id _ _ Hid) as Hrd.
  destruct (replace_succeeds _ _ _ _ _ _ Hs Hrd) as [c' Hc'].
  rewrite Hc'. eexists. split_and!; [done.. | | apply cached_mc_del].
  change (stored (mc_del t k ?w0) t k) with (stored w0 t k).
  rewrite stored_with_coll.
  destruct (replace_find_one _ _ _ _ _ (mk_is_Some _ _ Hs) Hk Hc')
    as (d1 & d2 & Hd1 & Hd2 & Hf).
  congruence.
Qed.

End view.

(** C7, as the code has it. On the view that [get(k)] returned from a
    multi-value table, assigning a field writes the field in the view object
    and then the whole view back under [k], so that the next [get(k)] shows
    the assigned value, provided the assignment keeps the key field equal to
    [k] and the [_id] equal to the stored one; both are checked on the way
    (by the table and by the store). *)
Theorem view_setitem_writes_through
    (t : table) (k f : string) (v : scalar) (d : record) (w w1 : world) (l : loc) :
  _class t = MultiValue →
  stored w t k = Some d → coherent_at w t k →
  (f = _key_name t → v = SStr k) →
  (f = "_id" → d !! "_id" = Some v) →
  MongoMultiValueTable.__getitem__ t k w = (Ok (PRef l), w1) →
  ∃ w2 l' w3 o',
    MongoMutableDict.__setitem__ l f v w1 = (Ok (), w2) ∧
    heap w2 !! l = Some (MutableDict t k (<[f := v]> d)) ∧
    stored w2 t k = Some (<[f := v]> d) ∧
    MongoMultiValueTable.__getitem__ t k w2 = (Ok (PRef l'), w3) ∧
    heap w3 !! l' = Some o' ∧ items o' = <[f := v]> d ∧ items o' !! f = Some v.
Proof.
  intros Hc Hs Hco Hkey Hid.
  rewrite multi_getitem_run, (coherent_lookup_doc _ _ _ _ Hs Hco). simpl.
  intros [= <- <-].
  set (w0 := mc_put t k d (mc_got t k w)).
  set (h1 := heap w ++ [MutableDict t k d]).
  set (d' := <[f := v]> d).
  assert (h1 !! length (heap w) = Some (MutableDict t k d)) as Hh1.
  { unfold h1. by rewrite lookup_app_r, Nat.sub_diag. }
  set (h2 := <[length (heap w) := MutableDict t k d']> h1).
  assert (h2 !! length (heap w) = Some (MutableDict t k d')) as Hh2.
  { unfold h2. apply list_lookup_insert_eq. by eapply lookup_lt_Some. }
  assert (d' !! _key_name t = Some (SStr k)) as Hk'.
  { unfold d'. destruct (decide (f = _key_name t)) as [-> | Hne].
    - rewrite lookup_insert_eq. by rewrite Hkey.
    - rewrite lookup_insert_ne by done. by apply find_one_Some in Hs as [? _]. }
  assert (d' !! "_id" = d !! "_id") as Hid'.
  { unfold d'. destruct (decide (f = "_id")) as [-> | Hne].
    - rewrite lookup_insert_eq. by rewrite Hid.
    - by rewrite lookup_insert_ne. }
  destruct (written_replaces t k d d' (with_heap h2 w0)) as (w2 & Hw & Hheap & Hs2 & Hc2);
    [done.. |].
  assert (MongoMutableDict.__setitem__ (length (heap w)) f v (with_heap h1 w0)
          = (Ok (), w2)) as Hset.
  { unfold MongoMutableDict.__setitem__, setitem_MutableDict. rewrite bind_run.
    unfold deref at 1. change (heap (with_heap h1 w0)) with h1. rewrite Hh1.
    rewrite bind_run. unfold store at 1.
    change (World _ (db (with_heap h1 w0)) (_MC (with_heap h1 w0)))
      with (with_heap h2 w0).
    unfold setitem. rewrite Hc.
    rewrite (multi_setitem_run t k _ _ (with_heap h2 w0) Hh2).
    unfold multi_written. simpl items.
    rewrite Hk', bool_decide_eq_true_2 by done. exact Hw. }
  assert (lookup_doc w2 t k = Some d') as Hl2.
  { unfold lookup_doc. by rewrite Hc2. }
  exists w2. eexists _, _, (MutableDict t k d').
  split_and!; [done | | done | | | done | ].
  - rewrite Hheap. exact Hh2.
  - rewrite multi_getitem_run, Hl2. simpl. reflexivity.
  - simpl. by rewrite lookup_app_r, Nat.sub_diag.
  - simpl. apply lookup_insert_eq.
Qed.

(** ** Iteration *)

Section iteritems.
Import Collection.
Implicit Types (t : table) (k : string) (w : world) (c : list record).

Lemma item_ok key_name (i : record) x :
  key_name ≠ "_id" → i !! key_name = Some x → is_Some (i !! "_id") →
  MongoTable.item key_name i = Ok (x, delete "_id" (delete key_name i)).
Proof.
  intros Hne Hk [j Hj]. unfold MongoTable.item, MongoTable.dict_pop.
  rewrite Hk. simpl. rewrite lookup_delete_ne, Hj by done. simpl.
  unfold MongoTable.key_of. by rewrite Hk.
Qed.

Lemma run_gen_items key_name c :
  key_name ≠ "_id" → coll_ok key_name c →
  ∃ ps, MongoTable.run_gen (MongoTable.item key_name) c = Ok ps ∧
    Forall2 (λ d p, d !! key_name = Some p.1 ∧
                    p.2 = delete "_id" (delete key_name d)) c ps.
Proof.
  intros Hne. induction 1 as [| d c [[x Hx] Hid] _ (ps & Hps & Hall)]; simpl.
  - exists []. by split.
  - rewrite (item_ok _ _ _ Hne Hx Hid), Hps. simpl.
    eexists. split; [done |]. by constructor.
Qed.

(** The invariant holds of what the tables write. *)
Lemma coll_ok_nil key_name : coll_ok key_name [].
Proof. constructor. Qed.

Lemma coll_ok_replace key_name c f v data c' :
  is_Some (data !! key_name) → coll_ok key_name c →
  replace c f v data = Ok c' → coll_ok key_name c'.
Proof.
  intros Hk Hc. revert c'.
  induction Hc as [| d c [Hdk [j Hj]] Hc IH]; simpl; intros c'.
  - intros [= <-]. constructor.
  - destruct (matches f v d).
    + destruct (replace_doc d data) as [d' |] eqn:Hr; simpl; [| done].
      intros [= <-]. constructor; [| done].
      pose proof (replace_doc_stored_as _ _ _ Hr) as Hst. split.
      * destruct Hk as [x Hx]. exists x. by eapply stored_as_lookup.
      * unfold replace_doc in Hr. rewrite Hj in Hr.
        destruct (data !! "_id") as [i |] eqn:Hi.
        -- case_decide; [| done]. injection Hr as <-. by rewrite Hi.
        -- injection Hr as <-. rewrite lookup_insert_eq. by eexists.
    + destruct (replace c f v data) as [r |] eqn:Hr; simpl; [| done].
      intros [= <-]. constructor; [by split; [| eexists] |]. by apply IH.
Qed.

Lemma coll_ok_update key_name c f v data c' :
  is_Some (data !! key_name) → coll_ok key_name c →
  update c f v data = Ok c' → coll_ok key_name c'.
Proof.
  intros Hk Hc. unfold update. destruct (find_one c f v).
  - by apply coll_ok_replace.
  - unfold insert. destruct (data !! "_id") as [i |] eqn:Hi.
    + destruct (has_id c i); [done |]. intros [= <-].
      apply Forall_app. split; [done |]. constructor; [| constructor].
      split; [done | by rewrite Hi].
    + intros [= <-]. apply Forall_app. split; [done |].
      constructor; [| constructor]. split.
      * destruct Hk as [x Hx]. exists x. rewrite lookup_insert_ne; [done |].
        congruence.
      * rewrite lookup_insert_eq. by eexists.
Qed.

Lemma coll_ok_remove key_name c f v :
  coll_ok key_name c → coll_ok key_name (remove c f v).
Proof.
  unfold coll_ok, remove. rewrite !Forall_forall. intros Hc d Hd.
  apply Hc. apply list_elem_of_In. apply list_elem_of_In, filter_In in Hd.
  tauto.
Qed.

Lemma coll_ok_written t k data w :
  is_Some (data !! _key_name t) →
  coll_ok (_key_name t) (coll_of t w) →
  coll_ok (_key_name t) (coll_of t (snd (written t k data w))).
Proof.
  intros Hk Hc. unfold written.
  destruct (Collection.update _ _ _ _) as [c' |] eqn:Hu; simpl; [| done].
  change (coll_of t (mc_del t k ?w0)) with (coll_of t w0).
  rewrite coll_of_with_coll. by eapply coll_ok_update.
Qed.

(** A write of another table into the same collection keeps the invariant
    when the document has the field. *)
Lemma coll_ok_written_other f t t' k data w :
  is_Some (data !! f) →
  coll_ok f (coll_of t w) →
  coll_ok f (coll_of t (snd (written t' k data w))).
Proof.
  intros Hk Hc. unfold written.
  destruct (Collection.update _ _ _ _) as [c' |] eqn:Hu; simpl; [| done].
  unfold coll_of in *. simpl.
  destruct (decide (_coll t' = _coll t)) as [He | Hne].
  - rewrite He in *. rewrite lookup_total_insert_eq. by eapply coll_ok_update.
  - by rewrite lookup_total_insert_ne.
Qed.

Lemma coll_ok_view_written f t parent root_key l d w :
  is_Some (d !! f) →
  coll_ok f (coll_of t w) →
  coll_ok f (coll_of t (snd (view_written parent root_key l d w))).
Proof.
  intros Hd Hc. unfold view_written. destruct (_class parent); [done |].
  destruct (d !! _key_name parent) as [x |] eqn:Hk.
  { case_bool_decide; [by apply coll_ok_written_other | done]. }
  cbv zeta. set (d2 := <[_key_name parent := SStr root_key]> d).
  assert (is_Some (d2 !! f)) as Hd2.
  { destruct Hd as [y Hy]. exists y. unfold d2.
    rewrite lookup_insert_ne; [done | congruence]. }
  set (w' := with_heap _ w).
  pose proof (coll_ok_written_other f t parent root_key d2 w' Hd2 Hc) as Hc'.
  destruct (written parent root_key d2 w') as [[[] | e] w2]; simpl in *; [| done].
  by apply coll_ok_written_other.
Qed.

(** [setitem] and [pop] keep the collection of their table well formed. *)
Lemma setitem_coll_ok t k r w :
  coll_ok (_key_name t) (coll_of t w) →
  coll_ok (_key_name t) (coll_of t (snd (setitem t k r w))).
Proof.
  intros Hc. unfold setitem. destruct (_class t).
  - destruct r as [s | l]; [| done].
    rewrite single_setitem_scalar. apply coll_ok_written; [| done].
    destruct (decide (_key_name t = "val")) as [-> | Hne].
    + rewrite lookup_insert_eq. by eexists.
    + rewrite lookup_insert_ne, lookup_singleton_eq by done. by eexists.
  - destruct r as [s | l]; [done |].
    destruct (heap w !! l) as [o |] eqn:Hl; [| by rewrite multi_setitem_dangling].
    rewrite (multi_setitem_run _ _ _ _ _ Hl). unfold multi_written.
    destruct (items o !! _key_name t) as [x |] eqn:Hx.
    { case_bool_decide; [| done]. apply coll_ok_written; [| done].
      rewrite Hx. by eexists. }
    cbv zeta. set (d1 := <[_key_name t := SStr k]> (items o)).
    assert (d1 !! _key_name t = Some (SStr k)) as Hk by apply lookup_insert_eq.
    destruct o as [d | parent root_key d]; simpl with_items.
    + apply coll_ok_written; [by eexists | done].
    + set (w1 := with_heap _ w).
      pose proof (coll_ok_view_written (_key_name t) t parent root_key l d1 w1
                    (mk_is_Some _ _ Hk) Hc) as Hc'.
      destruct (view_written parent root_key l d1 w1) as [[[] | e] w2];
        simpl in *; [| done].
      apply coll_ok_written; [| done].
      eexists. by apply parent_keyed_lookup.
Qed.

Lemma getitem_db t k w : db (snd (getitem t k w)) = db w.
Proof.
  unfold getitem.
  destruct (_class t); [rewrite single_getitem_run | rewrite multi_getitem_run];
    by destruct (lookup_doc w t k).
Qed.

Lemma pop_coll_ok t k w :
  coll_ok (_key_name t) (coll_of t w) →
  coll_ok (_key_name t) (coll_of t (snd (MongoTable.pop t k w))).
Proof.
  intros Hc. rewrite pop_run. pose proof (getitem_db t k w) as Hdb.
  destruct (getitem t k w) as [[r | e] w']; simpl in *.
  - change (coll_of t (mc_del t k ?w0)) with (coll_of t w0).
    rewrite coll_of_with_coll. apply coll_ok_remove.
    by rewrite (coll_of_same_db _ _ _ Hdb).
  - by rewrite (coll_of_same_db _ _ _ Hdb).
Qed.

End iteritems.

(** C8. [iteritems] yields, for each document of the collection and in the
    order of the scan, the pair of its key-field value and the document
    without the key field and without [_id]; it returns the world as it
    found it and its result is the same whatever the cache and the heap
    are. *)
Theorem iteritems_yields_every_document (t : table) (w : world) :
  _key_name t ≠ "_id" →
  coll_ok (_key_name t) (coll_of t w) →
  ∃ ps,
    MongoTable.iteritems t w = (Ok ps, w) ∧
    Forall2 (λ d p, d !! _key_name t = Some p.1 ∧
                    p.2 = delete "_id" (delete (_key_name t) d))
            (coll_of t w) ps ∧
    ∀ h mc, MongoTable.iteritems t (World h (db w) mc)
            = (Ok ps, World h (db w) mc).
Proof.
  intros Hne Hok.
  destruct (run_gen_items _ _ Hne Hok) as (ps & Hps & Hall).
  exists ps. split_and!; [| done |].
  - unfold MongoTable.iteritems. rewrite bind_run. simpl.
    unfold lift, Collection.find. by rewrite Hps.
  - intros h mc. unfold MongoTable.iteritems. rewrite bind_run. simpl.
    unfold lift, Collection.find.
    change (coll_of t (World h (db w) mc)) with (coll_of t w). by rewrite Hps.
Qed.

(** ** In-place injection of the key field *)

(** C9. When the dict passed to a multi-value [set(k, r)] has no key field,
    the field is written into that very dict object, whatever comes of the
    write to the store: after the call the object at the caller's location
    holds it next to all it held, no object was allocated and no other
    object changed.  A plain dict gains this one field; a view whose
    assignment went through its parent table can have gained the key field
    of the parent as well. *)
Theorem multi_setitem_mutates_argument
    (t : table) (k : string) (l : loc) (o : pyobj) (w : world) :
  heap w !! l = Some o →
  items o !! _key_name t = None →
  let w' := snd (MongoMultiValueTable.__setitem__ t k (PRef l) w) in
  heap w' = <[l := injected t k o]> (heap w) ∧
  heap w' !! l = Some (injected t k o) ∧
  items (injected t k o) !! _key_name t = Some (SStr k) ∧
  items o ⊆ items (injected t k o) ∧
  (¬ dispatches w t (PRef l) →
   injected t k o = with_items o (<[_key_name t := SStr k]> (items o))) ∧
  length (heap w') = length (heap w).
Proof.
  intros Hl Hk w'. subst w'.
  rewrite (multi_setitem_run _ _ _ _ _ Hl), (multi_written_heap _ _ _ _ _ Hl).
  split_and!.
  - done.
  - apply list_lookup_insert_eq. by eapply lookup_lt_Some.
  - unfold injected. rewrite Hk.
    destruct o as [d | parent root_key d]; simpl in *.
    + apply lookup_insert_eq.
    + apply parent_keyed_lookup, lookup_insert_eq.
  - apply items_injected_subseteq.
  - intros Hnd. by eapply items_injected_plain.
  - apply length_insert.
Qed.

(** ** No cache configured *)

Section no_cache.
Import Collection.
Implicit Types (t : table) (k : string) (w : world) (d data : record).

Lemma replace_raises c f v data e :
  replace c f v data = Raise e → e = OperationFailure.
Proof.
  induction c as [| d c IH]; simpl; [done |].
  destruct (matches f v d).
  - unfold replace_doc.
    destruct (data !! "_id"), (d !! "_id"); simpl; try done.
    case_decide; simpl; [done | congruence].
  - destruct (replace c f v data); simpl; [done |]. intros [= <-]. by apply IH.
Qed.

Lemma update_raises c f v data e :
  Collection.update c f v data = Raise e → e = OperationFailure.
Proof.
  unfold Collection.update. destruct (find_one c f v).
  - apply replace_raises.
  - unfold insert. destruct (data !! "_id") as [i |]; [| done].
    destruct (has_id c i); [congruence | done].
Qed.

Lemma update_untouched t k data w :
  cache (_MC w) = None → cache_untouched (coll_update t k data w).
Proof.
  intros Hoff. rewrite update_run.
  destruct (Collection.update _ _ _ _) as [c' | e] eqn:Hu; split; try done.
  simpl. apply update_raises in Hu. by subst e.
Qed.

Lemma mc_got_off t k w : cache (_MC w) = None → mc_got t k w = w.
Proof. apply on_client_off. Qed.

Lemma mc_put_off t k d w : cache (_MC w) = None → mc_put t k d w = w.
Proof. apply on_client_off. Qed.

Lemma mc_del_off t k w : cache (_MC w) = None → mc_del t k w = w.
Proof. apply on_client_off. Qed.

Lemma lookup_doc_off t k w :
  cache (_MC w) = None → lookup_doc w t k = stored w t k.
Proof. unfold lookup_doc, cached. by intros ->. Qed.

Lemma written_off t k data w :
  cache (_MC w) = None → written t k data w = coll_update t k data w.
Proof.
  intros Hoff. rewrite update_run. unfold written.
  destruct (Collection.update _ _ _ _); [| done].
  by rewrite mc_del_off.
Qed.

Lemma single_setitem_off t k r w :
  cache (_MC w) = None →
  MongoSingleValueTable.__setitem__ t k r w =
    match r with
    | PScalar s =>
        coll_update t k (<["val" := s]> {[_key_name t := SStr k]}) w
    | PRef _ => (Raise AssertionError, w)
    end.
Proof.
  intros Hoff. destruct r as [s | l]; [| done].
  by rewrite single_setitem_scalar, written_off.
Qed.

Lemma multi_setitem_off t k r w :
  cache (_MC w) = None →
  ¬ dispatches w t r →
  MongoMultiValueTable.__setitem__ t k r w =
    match r with
    | PScalar _ => (Raise AssertionError, w)
    | PRef l =>
        match heap w !! l with
        | None => (Raise AssertionError, w)
        | Some o =>
            match items o !! _key_name t with
            | Some x =>
                if bool_decide (x = SStr k)
                then coll_update t k (items o) w
                else (Raise AssertionError, w)
            | None =>
                let data := <[_key_name t := SStr k]> (items o) in
                coll_update t k data
                  (with_heap (<[l := with_items o data]> (heap w)) w)
            end
        end
    end.
Proof.
  intros Hoff Hnd. destruct r as [s | l]; [done |].
  destruct (heap w !! l) as [o |] eqn:Hl.
  - rewrite (multi_setitem_ref _ _ _ _ _ Hl Hnd).
    destruct (items o !! _key_name t) as [x |].
    + case_bool_decide; [by apply written_off | done].
    + by apply written_off.
  - by apply multi_setitem_dangling.
Qed.

Lemma written_untouched t k data w :
  cache (_MC w) = None → cache_untouched (written t k data w).
Proof. intros Hoff. rewrite written_off by done. by apply update_untouched. Qed.

(** The write-back of a view, with no cache: the upserts alone. *)
Lemma view_written_untouched parent root_key l d w :
  cache (_MC w) = None → cache_untouched (view_written parent root_key l d w).
Proof.
  intros Hoff. unfold view_written. destruct (_class parent); [by split |].
  destruct (d !! _key_name parent) as [x |].
  { case_bool_decide; [by apply written_untouched | by split]. }
  cbv zeta. set (d2 := <[_key_name parent := SStr root_key]> d).
  set (w' := with_heap _ w).
  pose proof (written_untouched parent root_key d2 w' Hoff) as [Hne Hoff'].
  destruct (written parent root_key d2 w') as [[[] | e] w2]; simpl in *.
  - by apply written_untouched.
  - by split.
Qed.

Lemma multi_written_untouched t k l o w :
  cache (_MC w) = None → cache_untouched (multi_written t k l o w).
Proof.
  intros Hoff. unfold multi_written.
  destruct (items o !! _key_name t) as [x |].
  { case_bool_decide; [by apply written_untouched | by split]. }
  cbv zeta. set (d1 := <[_key_name t := SStr k]> (items o)).
  destruct o as [d | parent root_key d]; simpl with_items.
  - by apply written_untouched.
  - set (w1 := with_heap _ w).
    pose proof (view_written_untouched parent root_key l d1 w1 Hoff) as [Hne Hoff'].
    destruct (view_written parent root_key l d1 w1) as [[[] | e] w2]; simpl in *.
    + by apply written_untouched.
    + by split.
Qed.

Lemma setitem_untouched t k r w :
  cache (_MC w) = None → cache_untouched (setitem t k r w).
Proof.
  intros Hoff. unfold setitem. destruct (_class t).
  - rewrite single_setitem_off by done.
    destruct r; [by apply update_untouched | by split].
  - destruct r as [s | l]; [by split |].
    destruct (heap w !! l) as [o |] eqn:Hl.
    + rewrite (multi_setitem_run _ _ _ _ _ Hl). by apply multi_written_untouched.
    + rewrite multi_setitem_dangling by done. by split.
Qed.

Lemma written_raises t k data w e w' :
  written t k data w = (Raise e, w') → e = OperationFailure.
Proof.
  unfold written.
  destruct (Collection.update _ _ _ _) as [c' |] eqn:Hu; [done |].
  intros [= <- _]. by eapply update_raises.
Qed.

Lemma view_written_raises parent root_key l d w e w' :
  view_written parent root_key l d w = (Raise e, w') →
  e = OperationFailure ∨ e = AssertionError.
Proof.
  unfold view_written. destruct (_class parent); [intros [= <- _]; by right |].
  destruct (d !! _key_name parent) as [x |].
  { case_bool_decide; [| intros [= <- _]; by right].
    intros Hw. left. by eapply written_raises. }
  cbv zeta.
  destruct (written parent root_key _ (with_heap _ w)) as [[[] | e1] w2] eqn:H1.
  - intros Hw. left. by eapply written_raises.
  - intros [= <- _]. left. by eapply written_raises.
Qed.

Lemma multi_written_raises t k l o w e w' :
  multi_written t k l o w = (Raise e, w') →
  e = OperationFailure ∨ e = AssertionError.
Proof.
  unfold multi_written. destruct (items o !! _key_name t) as [x |].
  { case_bool_decide; [| intros [= <- _]; by right].
    intros Hw. left. by eapply written_raises. }
  cbv zeta. destruct o as [d | parent root_key d]; simpl with_items.
  - intros Hw. left. by eapply written_raises.
  - destruct (view_written parent root_key l _ (with_heap _ w))
      as [[[] | e1] w2] eqn:Hv.
    + intros Hw. left. by eapply written_raises.
    + intros [= <- _]. by eapply view_written_raises.
Qed.

(** [setitem] raises for its asserts and for the store, nothing else. *)
Lemma setitem_raises t k r w e w' :
  setitem t k r w = (Raise e, w') →
  e = OperationFailure ∨ e = AssertionError.
Proof.
  unfold setitem. destruct (_class t).
  - destruct r as [s | l]; [| intros [= <- _]; by right].
    rewrite single_setitem_scalar. intros H. left. by eapply written_raises.
  - destruct r as [s | l]; [intros [= <- _]; by right |].
    destruct (heap w !! l) as [o |] eqn:Hl.
    + rewrite (multi_setitem_run _ _ _ _ _ Hl). apply multi_written_raises.
    + rewrite multi_setitem_dangling by done. intros [= <- _]. by right.
Qed.

Lemma getitem_untouched t k w :
  cache (_MC w) = None → cache_untouched (getitem t k w).
Proof.
  intros Hoff. unfold getitem.
  destruct (_class t); [rewrite single_getitem_run | rewrite multi_getitem_run];
    rewrite mc_got_off by done.
  - destruct (lookup_doc w t k) as [d |]; [| by split].
    rewrite mc_put_off by done. by destruct (d !! "val").
  - destruct (lookup_doc w t k) as [d |]; [| by split].
    simpl. by rewrite mc_put_off.
Qed.

End no_cache.

(** C10. With no cache configured, [contains], [get], [set] and [remove]
    are functions of the document store alone (and of the dict passed):
    every cache step is skipped, so none of them fails in the unguarded
    accessors of [Memcache] and the cache handle stays unset. *)
Theorem no_cache_no_cache_access (t : table) (k : string) (w : world) :
  cache (_MC w) = None →
  MongoTable.__contains__ t k w
    = (Ok (bool_decide (is_Some (stored w t k))), w) ∧
  MongoSingleValueTable.__getitem__ t k w
    = (match stored w t k with
       | None => Raise (KeyError k)
       | Some d =>
           match d !! "val" with
           | Some v => Ok (PScalar v)
           | None => Raise (KeyError "val")
           end
       end, w) ∧
  MongoMultiValueTable.__getitem__ t k w
    = match stored w t k with
      | None => (Raise (KeyError k), w)
      | Some d =>
          (Ok (PRef (length (heap w))),
           with_heap (heap w ++ [MutableDict t k d]) w)
      end ∧
  (∀ s, MongoSingleValueTable.__setitem__ t k (PScalar s) w
        = coll_update t k (<["val" := s]> {[_key_name t := SStr k]}) w) ∧
  (∀ l o x, heap w !! l = Some o → items o !! _key_name t = Some x → x = SStr k →
        MongoMultiValueTable.__setitem__ t k (PRef l) w
        = coll_update t k (items o) w) ∧
  MongoTable.pop t k w
    = match getitem t k w with
      | (Ok r, w') =>
          (Ok r, with_coll t (Collection.remove (coll_of t w') (_key_name t) (SStr k)) w')
      | (Raise e, w') => (Raise e, w')
      end ∧
  cache_untouched (MongoTable.__contains__ t k w) ∧
  cache_untouched (getitem t k w) ∧
  (∀ r, cache_untouched (setitem t k r w)) ∧
  cache_untouched (MongoTable.pop t k w).
Proof.
  intros Hoff.
  assert (MongoTable.__contains__ t k w
          = (Ok (bool_decide (is_Some (stored w t k))), w)) as Hcontains.
  { rewrite contains_run, lookup_doc_off, mc_got_off by done.
    destruct (stored w t k) as [d |]; [| done]. by rewrite mc_put_off. }
  assert (MongoTable.pop t k w
    = match getitem t k w with
      | (Ok r, w') =>
          (Ok r, with_coll t (Collection.remove (coll_of t w') (_key_name t) (SStr k)) w')
      | (Raise e, w') => (Raise e, w')
      end) as Hpop.
  { rewrite pop_run. destruct (getitem_untouched t k w Hoff) as [_ Hoff'].
    destruct (getitem t k w) as [[r | e] w']; [| done].
    by rewrite mc_del_off. }
  split_and!.
  - done.
  - rewrite single_getitem_run, lookup_doc_off, mc_got_off by done.
    destruct (stored w t k) as [d |]; [| done]. by rewrite mc_put_off.
  - rewrite multi_getitem_run, lookup_doc_off, mc_got_off by done.
    destruct (stored w t k) as [d |]; [| done]. simpl. by rewrite mc_put_off.
  - intros s. by rewrite single_setitem_off.
  - intros l o x Hl Hx ->.
    rewrite (multi_setitem_run _ _ _ _ _ Hl). unfold multi_written.
    rewrite Hx, bool_decide_eq_true_2 by done. by apply written_off.
  - done.
  - rewrite Hcontains. by split.
  - by apply getitem_untouched.
  - intros r. by apply setitem_untouched.
  - rewrite Hpop. destruct (getitem_untouched t k w Hoff) as [Hne Hoff'].
    destruct (getitem t k w) as [[r | e] w']; by split.
Qed.

(** ** The scenarios of the specification, evaluated *)

Section scenarios.
Import MongoDBBackend.

Lemma scenario1_set :
  setitem users "alice" (PRef 0) scenario0 = (Ok (), scenario1).
Proof. vm_compute. reflexivity. Qed.

Lemma scenario2_get :
  MongoMultiValueTable.__getitem__ users "alice" scenario1
  = (Ok (PRef 1), scenario2).
Proof. vm_compute. reflexivity. Qed.

Lemma scenario1_stored : stored scenario1 users "alice" = Some alice_doc.
Proof. vm_compute. reflexivity. Qed.

Lemma scenario2_stored : stored scenario2 users "alice" = Some alice_doc.
Proof. vm_compute. reflexivity. Qed.

Lemma scenario2_cached : cached scenario2 users "alice" = Some alice_doc.
Proof. vm_compute. reflexivity. Qed.

(** [roles.set("admin", "full_access")] then [roles.get("admin")]. *)
Example roles_scenario :
  fst (getitem roles "admin"
         (snd (setitem roles "admin" (PScalar (SStr "full_access")) world0)))
  = Ok (PScalar (SStr "full_access")).
Proof. vm_compute. reflexivity. Qed.

(** [users.remove("alice")] twice. *)
Example remove_twice_scenario :
  let w := snd (MongoTable.pop users "alice" scenario2) in
  fst (MongoTable.__contains__ users "alice" w) = Ok false ∧
  fst (MongoTable.pop users "alice" w) = Raise (KeyError "alice").
Proof. vm_compute. done. Qed.

End scenarios.

Lemma scenario3_set :
  setitem MongoDBBackend.pending_registrations "code" (PRef 1) scenario2
  = (Ok (), scenario3).
Proof. vm_compute. reflexivity. Qed.

Lemma scenario2_view :
  heap scenario2 !! 1 = Some (MutableDict MongoDBBackend.users "alice" alice_doc).
Proof. vm_compute. reflexivity. Qed.

Lemma scenario2_dispatches :
  dispatches scenario2 MongoDBBackend.pending_registrations (PRef 1).
Proof.
  exists 1, MongoDBBackend.users, "alice", alice_doc.
  split; [reflexivity |]. split; [exact scenario2_view |].
  vm_compute. reflexivity.
Qed.

Lemma set_get_round_trip_witness :
  well_keyed MongoDBBackend.pending_registrations ∧
  setitem MongoDBBackend.pending_registrations "code" (PRef 1) scenario2
    = (Ok (), scenario3) ∧
  ∃ x w2 y w3,
    cached scenario3 MongoDBBackend.pending_registrations "code" = None ∧
    getitem MongoDBBackend.pending_registrations "code" scenario3 = (Ok x, w2) ∧
    round_trip MongoDBBackend.pending_registrations "code" scenario2 (PRef 1) w2 x ∧
    (is_Some (cache (_MC scenario3)) →
     is_Some (cached w2 MongoDBBackend.pending_registrations "code")) ∧
    getitem MongoDBBackend.pending_registrations "code" w2 = (Ok y, w3) ∧
    round_trip MongoDBBackend.pending_registrations "code" scenario2 (PRef 1) w3 y.
Proof.
  assert (well_keyed MongoDBBackend.pending_registrations) as Hwk
    by (intros H; discriminate H).
  split; [exact Hwk |]. split; [exact scenario3_set |].
  exact (set_get_round_trip MongoDBBackend.pending_registrations "code" (PRef 1)
           scenario2 scenario3 Hwk scenario3_set).
Defined.

Lemma absent_key_not_found_witness :
  stored scenario1 MongoDBBackend.users "bob" = None ∧
  cached scenario1 MongoDBBackend.users "bob" = None ∧
  fst (MongoTable.__contains__ MongoDBBackend.users "bob" scenario1) = Ok false ∧
  fst (MongoSingleValueTable.__getitem__ MongoDBBackend.users "bob" scenario1)
    = Raise (KeyError "bob") ∧
  fst (MongoMultiValueTable.__getitem__ MongoDBBackend.users "bob" scenario1)
    = Raise (KeyError "bob").
Proof.
  assert (stored scenario1 MongoDBBackend.users "bob" = None) as Hs
    by (vm_compute; reflexivity).
  assert (cached scenario1 MongoDBBackend.users "bob" = None) as Hc
    by (vm_compute; reflexivity).
  split; [exact Hs |]. split; [exact Hc |].
  exact (absent_key_not_found MongoDBBackend.users "bob" scenario1 Hs Hc).
Defined.

Lemma scenario2_coherent : coherent_at scenario2 MongoDBBackend.users "alice".
Proof.
  intros d. rewrite scenario2_cached, scenario2_stored. done.
Defined.

Lemma pop_present_and_absent_witness :
  (∃ x w',
     MongoTable.pop MongoDBBackend.users "alice" scenario2 = (Ok x, w') ∧
     value_of MongoDBBackend.users "alice" alice_doc w' x ∧
     stored w' MongoDBBackend.users "alice" = None ∧
     cached w' MongoDBBackend.users "alice" = None ∧
     fst (MongoTable.__contains__ MongoDBBackend.users "alice" w') = Ok false) ∧
  (∃ w',
     MongoTable.pop MongoDBBackend.users "bob" scenario2
       = (Raise (KeyError "bob"), w') ∧
     db w' = db scenario2 ∧ mc_entries w' = mc_entries scenario2).
Proof.
  split.
  - destruct (proj1 (pop_present_and_absent MongoDBBackend.users "alice" scenario2)
                alice_doc scenario2_stored scenario2_coherent)
      as (x & w' & Hp & Hv & _ & Hs & Hc & _ & Hn).
    + intros H. discriminate H.
    + exists x, w'. repeat split; assumption.
  - destruct (proj2 (pop_present_and_absent MongoDBBackend.users "bob" scenario2))
      as (w' & Hp & _ & Hdb & He & _).
    + vm_compute. reflexivity.
    + vm_compute. reflexivity.
    + exists w'. repeat split; assumption.
Defined.

Lemma set_invalidates_cache_witness :
  setitem MongoDBBackend.pending_registrations "code" (PRef 1) scenario2
    = (Ok (), scenario3) ∧
  is_Some (cached scenario2 MongoDBBackend.users "alice") ∧
  cached scenario3 MongoDBBackend.pending_registrations "code" = None ∧
  mc_calls scenario3 =
    McDelete "pending_registrationspending_registrationcode"
      :: McDelete "usersloginalice" :: mc_calls scenario2.
Proof.
  destruct (set_invalidates_cache MongoDBBackend.pending_registrations "code"
              (PRef 1) scenario2 scenario3 scenario3_set) as (Hc & _ & Hcalls & _).
  split; [exact scenario3_set |].
  split; [rewrite scenario2_cached; eexists; reflexivity |].
  split; [exact Hc |].
  rewrite Hcalls. vm_compute. reflexivity.
Defined.

(** C5, as first stated, fails: in [scenario2] the cache holds alice's
    document, and the read that it serves is followed by a cache set. *)
Lemma get_writes_cache_on_hit :
  ¬ no_write_on_hit MongoDBBackend.users "alice" scenario2.
Proof.
  intros H.
  assert (is_Some (cached scenario2 MongoDBBackend.users "alice")) as Hhit
    by (rewrite scenario2_cached; eexists; reflexivity).
  apply H in Hhit. vm_compute in Hhit. discriminate Hhit.
Qed.

Lemma get_refreshes_cache_when_found_witness :
  is_Some (cache (_MC scenario2)) ∧
  let w' := snd (getitem MongoDBBackend.users "alice" scenario2) in
  mc_calls w' =
    McSet "usersloginalice" alice_doc 300 :: McGet "usersloginalice"
      :: mc_calls scenario2 ∧
  mc_entries w' = mc_entries scenario2.
Proof.
  assert (is_Some (cache (_MC scenario2))) as Hon
    by (vm_compute; eexists; reflexivity).
  split; [exact Hon |].
  pose proof (get_refreshes_cache_when_found MongoDBBackend.users "alice"
                scenario2 Hon) as H.
  cbv zeta in H.
  assert (lookup_doc scenario2 MongoDBBackend.users "alice" = Some alice_doc)
    as Hl by (vm_compute; reflexivity).
  rewrite Hl in H. destruct H as (Hcalls & _ & Hent).
  split; [exact Hcalls |].
  apply Hent. rewrite scenario2_cached. eexists; reflexivity.
Defined.

(** C7, as first stated, fails: assigning another login on alice's view is
    refused by the key check of the table, and the next read still shows
    the login alice. *)
Lemma view_key_assignment_not_reflected :
  is_Some (stored scenario1 MongoDBBackend.users "alice") ∧
  ¬ view_assignment_reflected MongoDBBackend.users "alice" "login"
      (SStr "bob") scenario1.
Proof.
  split; [rewrite scenario1_stored; eexists; reflexivity |].
  intros H.
  pose (r := MongoMutableDict.__setitem__ 1 "login" (SStr "bob") scenario2).
  destruct (H 1 scenario2 r.1 r.2) as (l' & w3 & o' & Hg & Hh & Hf).
  - exact scenario2_get.
  - subst r. apply surjective_pairing.
  - vm_compute in Hg. injection Hg as <- <-.
    vm_compute in Hh. injection Hh as <-.
    vm_compute in Hf. discriminate Hf.
Qed.

Lemma view_setitem_writes_through_witness :
  ∃ w2 l' w3 o',
    MongoMutableDict.__setitem__ 1 "email" (SStr "b@x.com") scenario2 = (Ok (), w2) ∧
    heap w2 !! 1 = Some (MutableDict MongoDBBackend.users "alice"
                           (<["email" := SStr "b@x.com"]> alice_doc)) ∧
    stored w2 MongoDBBackend.users "alice"
      = Some (<["email" := SStr "b@x.com"]> alice_doc) ∧
    MongoMultiValueTable.__getitem__ MongoDBBackend.users "alice" w2
      = (Ok (PRef l'), w3) ∧
    heap w3 !! l' = Some o' ∧
    items o' = <["email" := SStr "b@x.com"]> alice_doc ∧
    items o' !! "email" = Some (SStr "b@x.com").
Proof.
  apply (view_setitem_writes_through MongoDBBackend.users "alice" "email"
           (SStr "b@x.com") alice_doc scenario1 scenario2 1).
  - reflexivity.
  - exact scenario1_stored.
  - intros d Hd. vm_compute in Hd. discriminate Hd.
  - intros Hf. discriminate Hf.
  - intros Hf. discriminate Hf.
  - exact scenario2_get.
Defined.

Lemma iteritems_yields_every_document_witness :
  MongoTable.iteritems MongoDBBackend.users scenario2
  = (Ok [(SStr "alice", {[ "email" := SStr "a@x.com" ]})], scenario2).
Proof.
  destruct (iteritems_yields_every_document MongoDBBackend.users scenario2)
    as (ps & Hrun & Hall & _).
  - intros H. discriminate H.
  - unfold coll_ok.
    replace (coll_of MongoDBBackend.users scenario2) with [alice_doc]
      by (vm_compute; reflexivity).
    repeat constructor; eexists; vm_compute; reflexivity.
  - rewrite Hrun. f_equal. f_equal.
    replace (coll_of MongoDBBackend.users scenario2) with [alice_doc] in Hall
      by (vm_compute; reflexivity).
    apply Forall2_cons_inv_l in Hall as ([x d] & ps' & [Hx Hd] & Hnil & ->).
    apply Forall2_nil_inv_l in Hnil as ->. simpl in Hx, Hd.
    vm_compute in Hx. injection Hx as <-. rewrite Hd.
    vm_compute. reflexivity.
Defined.

Lemma multi_setitem_mutates_argument_witness :
  let w' := snd (MongoMultiValueTable.__setitem__
                   MongoDBBackend.pending_registrations "code" (PRef 1) scenario2) in
  heap scenario2 !! 1 = Some (MutableDict MongoDBBackend.users "alice" alice_doc) ∧
  heap w' !! 1
    = Some (MutableDict MongoDBBackend.users "alice"
              (<["pending_registration" := SStr "code"]> alice_doc)) ∧
  length (heap w') = length (heap scenario2).
Proof.
  intros w'. split; [exact scenario2_view |].
  destruct (multi_setitem_mutates_argument MongoDBBackend.pending_registrations
              "code" 1 (MutableDict MongoDBBackend.users "alice" alice_doc)
              scenario2 scenario2_view)
    as (_ & Hobj & _ & _ & _ & Hlen).
  - vm_compute. reflexivity.
  - split; [| exact Hlen]. fold w' in Hobj. rewrite Hobj.
    vm_compute. reflexivity.
Defined.

Lemma no_cache_no_cache_access_witness :
  cache (_MC world0) = None ∧
  MongoTable.__contains__ MongoDBBackend.roles "admin" world0 = (Ok false, world0) ∧
  cache_untouched (MongoTable.pop MongoDBBackend.roles "admin" world0).
Proof.
  split; [reflexivity |].
  destruct (no_cache_no_cache_access MongoDBBackend.roles "admin" world0 eq_refl)
    as (Hc & _ & _ & _ & _ & _ & _ & _ & _ & Hp).
  split; [exact Hc | exact Hp].
Defined.

(** * Further properties *)

(** ** Cache keys *)

Section namespaces.
Implicit Types (t : table) (k : string) (w : world) (d : record).

Lemma ns_eq t k : ns t k = _mc_prefix t +:+ k.
Proof. reflexivity. Qed.

Lemma ns_inj t k k' : ns t k = ns t k' → k = k'.
Proof. rewrite !ns_eq. apply (inj (String.append _)). Qed.

Lemma ns_same_prefix t t' k : _mc_prefix t = _mc_prefix t' → ns t k = ns t' k.
Proof. rewrite !ns_eq. by intros ->. Qed.

Lemma cached_mc_put_ne t k k' d w :
  k' ≠ k → cached (mc_put t k d w) t k' = cached w t k'.
Proof.
  intros Hne. unfold cached. simpl. destruct (cache (_MC w)); simpl; [| done].
  apply lookup_insert_ne. intros H. by apply ns_inj in H.
Qed.

Lemma cached_mc_del_ne t k k' w :
  k' ≠ k → cached (mc_del t k w) t k' = cached w t k'.
Proof.
  intros Hne. unfold cached. simpl. destruct (cache (_MC w)); simpl; [| done].
  apply lookup_delete_ne. intros H. by apply ns_inj in H.
Qed.

End namespaces.

(** X1. The cache key of a table is its prefix followed by the key, so two
    keys of one table never share a cache entry; and [key] treats a missing
    prefix as the empty one. *)
Theorem cache_key_injective (t : table) (k k' : string) :
  (ns t k = ns t k' ↔ k = k') ∧
  Memcache.key k None = k ∧
  Memcache.key k None = Memcache.key k (Some "").
Proof.
  split_and!; [| done..].
  split; [apply ns_inj | by intros ->].
Qed.

(** X2. The three tables of the backend never share a cache key, whatever
    the keys are. *)
Theorem backend_namespaces_disjoint (k k' : string) :
  ns MongoDBBackend.users k ≠ ns MongoDBBackend.roles k' ∧
  ns MongoDBBackend.users k ≠ ns MongoDBBackend.pending_registrations k' ∧
  ns MongoDBBackend.roles k ≠ ns MongoDBBackend.pending_registrations k'.
Proof. split_and!; intros H; rewrite !ns_eq in H; simpl in H; discriminate H. Qed.

(** X3. The prefix is the plain concatenation of name and key field: two
    tables whose prefixes coincide share their cache entries, and a read of
    [k] from the second is served the document the first one cached,
    whatever the collection of the second holds. *)
Theorem shared_prefix_serves_foreign_document
    (t1 t2 : table) (k : string) (d : record) (w : world) :
  _mc_prefix t1 = _mc_prefix t2 →
  is_Some (cache (_MC w)) →
  lookup_doc w t1 k = Some d →
  let w1 := snd (MongoMultiValueTable.__getitem__ t1 k w) in
  ∃ l w2,
    MongoMultiValueTable.__getitem__ t2 k w1 = (Ok (PRef l), w2) ∧
    heap w2 !! l = Some (MutableDict t2 k d) ∧
    fst (MongoTable.__contains__ t2 k w1) = Ok true.
Proof.
  intros Hp [c Hc] Hl w1. subst w1.
  rewrite (multi_getitem_run t1 k w), Hl. simpl.
  set (w1 := with_heap _ _).
  assert (lookup_doc w1 t2 k = Some d) as Hl2.
  { unfold lookup_doc.
    assert (cached w1 t2 k = Some d) as ->; [| done].
    unfold cached, w1. simpl. rewrite Hc. simpl.
    rewrite <- (ns_same_prefix _ _ _ Hp). apply lookup_insert_eq. }
  eexists _, _. rewrite multi_getitem_run, contains_run, Hl2. simpl.
  split_and!; [done | | done].
  unfold w1. simpl. by rewrite lookup_app_r, Nat.sub_diag.
Qed.

Lemma shared_prefix_serves_foreign_document_witness :
  let d : record := <["_id" := SOid 1]> (<["bc" := SStr "k"]> alice) in
  _mc_prefix table_a_bc = _mc_prefix table_ab_c ∧
  coll_of table_ab_c shared_prefix_world = [] ∧
  lookup_doc shared_prefix_world table_a_bc "k" = Some d ∧
  ∃ l w2,
    MongoMultiValueTable.__getitem__ table_ab_c "k"
      (snd (MongoMultiValueTable.__getitem__ table_a_bc "k" shared_prefix_world))
    = (Ok (PRef l), w2) ∧
    heap w2 !! l = Some (MutableDict table_ab_c "k" d).
Proof.
  intros d.
  split; [reflexivity |]. split; [reflexivity |].
  assert (is_Some (cache (_MC shared_prefix_world))) as Hon
    by (vm_compute; eexists; reflexivity).
  assert (lookup_doc shared_prefix_world table_a_bc "k" = Some d) as Hl
    by (vm_compute; reflexivity).
  split; [exact Hl |].
  destruct (shared_prefix_serves_foreign_document table_a_bc table_ab_c "k" d
              shared_prefix_world eq_refl Hon Hl) as (l & w2 & Hg & Hh & _).
  exists l, w2. split; [exact Hg | exact Hh].
Defined.

(** ** Frames *)

Section frame.
Implicit Types (t : table) (k : string) (w : world) (d data : record).

Lemma stored_same_db w w' t k : db w' = db w → stored w' t k = stored w t k.
Proof. unfold stored, coll_of. by intros ->. Qed.

Lemma lookup_doc_same w w' t k :
  db w' = db w → _MC w' = _MC w → lookup_doc w' t k = lookup_doc w t k.
Proof.
  intros Hdb HMC. unfold lookup_doc.
  by rewrite (stored_same_db _ _ _ _ Hdb), (cached_same_MC _ _ _ _ HMC).
Qed.

Lemma coherent_at_same w w' t k :
  db w' = db w → _MC w' = _MC w → coherent_at w t k → coherent_at w' t k.
Proof.
  intros Hdb HMC Hc d.
  rewrite (stored_same_db _ _ _ _ Hdb), (cached_same_MC _ _ _ _ HMC). apply Hc.
Qed.

Lemma SStr_ne k k' : k' ≠ k → SStr k' ≠ SStr k.
Proof. congruence. Qed.

(** What a write to [k] leaves of another key. *)
Lemma written_frame t k k' data w :
  data !! _key_name t = Some (SStr k) → k' ≠ k →
  stored (snd (written t k data w)) t k' = stored w t k' ∧
  cached (snd (written t k data w)) t k' = cached w t k'.
Proof.
  intros Hk Hne. unfold written.
  destruct (Collection.update _ _ _ _) as [c' |] eqn:Hu; simpl; [| done].
  split.
  - change (stored (mc_del t k ?w0) t k') with (stored w0 t k').
    rewrite stored_with_coll.
    by apply (update_find_one_ne _ _ _ _ _ _ Hk (SStr_ne _ _ Hne) Hu).
  - by rewrite cached_mc_del_ne.
Qed.

Lemma db_written_other t k data w (name : string) :
  name ≠ _coll t → db (snd (written t k data w)) !! name = db w !! name.
Proof.
  intros Hne. unfold written.
  destruct (Collection.update _ _ _ _); simpl; [| done].
  by rewrite lookup_insert_ne.
Qed.

Lemma db_view_written_other parent root_key l d w (name : string) :
  name ≠ _coll parent →
  db (snd (view_written parent root_key l d w)) !! name = db w !! name.
Proof.
  intros Hne. unfold view_written. destruct (_class parent); [done |].
  destruct (d !! _key_name parent) as [x |].
  { case_bool_decide; [by apply db_written_other | done]. }
  cbv zeta. set (d2 := <[_key_name parent := SStr root_key]> d).
  set (w' := with_heap _ w).
  pose proof (db_written_other parent root_key d2 w' name Hne) as Hdb.
  destruct (written parent root_key d2 w') as [[[] | e] w2]; simpl in *; [| done].
  by rewrite db_written_other.
Qed.

(** The world [setitem] ends in when the assignment of the key field, if
    any, stays in the dict object: the one it started from, up to the
    heap, or that world after a write. *)
Lemma setitem_world t k r w :
  ¬ dispatches w t r →
  ∃ w0, db w0 = db w ∧ _MC w0 = _MC w ∧
    (snd (setitem t k r w) = w0 ∨
     ∃ data, (well_keyed t → data !! _key_name t = Some (SStr k)) ∧
             snd (setitem t k r w) = snd (written t k data w0)).
Proof.
  intros Hnd. unfold setitem. destruct (_class t) eqn:Hc.
  - destruct r as [s | l].
    + rewrite single_setitem_scalar. exists w. split_and!; [done.. |].
      right. eexists. split; [| done]. intros Hwk.
      rewrite lookup_insert_ne by (by intros ?; apply Hwk).
      apply lookup_singleton_eq.
    + exists w. split_and!; [done.. |]. by left.
  - destruct r as [s | l]; [exists w; split_and!; [done.. |]; by left |].
    destruct (heap w !! l) as [o |] eqn:Hl.
    + rewrite (multi_setitem_ref _ _ _ _ _ Hl Hnd).
      destruct (items o !! _key_name t) as [x |] eqn:Hx.
      * case_bool_decide as Hxk.
        -- subst x. exists w. split_and!; [done.. |]. right. by exists (items o).
        -- exists w. split_and!; [done.. |]. by left.
      * eexists (with_heap _ w). split_and!; [done.. |]. right.
        eexists. split; [| done]. intros _. apply lookup_insert_eq.
    + rewrite multi_setitem_dangling by done.
      exists w. split_and!; [done.. |]. by left.
Qed.

(** The collections [setitem] can write: its own, and that of the parent of
    a view whose key field it assigns. *)
Lemma setitem_db_other t k r w (name : string) :
  name ≠ _coll t →
  (∀ l parent root_key d,
     r = PRef l → heap w !! l = Some (MutableDict parent root_key d) →
     d !! _key_name t = None → name ≠ _coll parent) →
  db (snd (setitem t k r w)) !! name = db w !! name.
Proof.
  intros Hne Hparent. unfold setitem. destruct (_class t).
  - destruct r as [s | l]; [| done].
    rewrite single_setitem_scalar. by apply db_written_other.
  - destruct r as [s | l]; [done |].
    destruct (heap w !! l) as [o |] eqn:Hl; [| by rewrite multi_setitem_dangling].
    rewrite (multi_setitem_run _ _ _ _ _ Hl). unfold multi_written.
    destruct (items o !! _key_name t) as [x |] eqn:Hx.
    { case_bool_decide; [by apply db_written_other | done]. }
    cbv zeta. set (d1 := <[_key_name t := SStr k]> (items o)).
    destruct o as [d | parent root_key d]; simpl with_items.
    + by rewrite db_written_other.
    + set (w1 := with_heap _ w).
      pose proof (db_view_written_other parent root_key l d1 w1 name
                    (Hparent l parent root_key d eq_refl Hl Hx)) as Hdb.
      destruct (view_written parent root_key l d1 w1) as [[[] | e] w2];
        simpl in *; [| done].
      by rewrite db_written_other.
Qed.

Lemma getitem_world t k w :
  db (snd (getitem t k w)) = db w ∧
  _MC (snd (getitem t k w)) =
    match lookup_doc w t k with
    | Some d => _MC (mc_put t k d (mc_got t k w))
    | None => _MC (mc_got t k w)
    end.
Proof. split; [apply getitem_db | apply getitem_MC]. Qed.

Lemma getitem_frame t k k' w :
  k' ≠ k →
  stored (snd (getitem t k w)) t k' = stored w t k' ∧
  cached (snd (getitem t k w)) t k' = cached w t k'.
Proof.
  intros Hne. destruct (getitem_world t k w) as [Hdb HMC]. split.
  - by apply stored_same_db.
  - destruct (lookup_doc w t k) as [d |].
    + rewrite (cached_same_MC _ _ _ _ HMC).
      by rewrite cached_mc_put_ne, cached_mc_got.
    + rewrite (cached_same_MC _ _ _ _ HMC). apply cached_mc_got.
Qed.

Lemma contains_frame t k k' w :
  k' ≠ k →
  stored (snd (MongoTable.__contains__ t k w)) t k' = stored w t k' ∧
  cached (snd (MongoTable.__contains__ t k w)) t k' = cached w t k'.
Proof.
  intros Hne. rewrite contains_run.
  destruct (lookup_doc w t k) as [d |]; simpl; (split; [done |]).
  - by rewrite cached_mc_put_ne, cached_mc_got.
  - apply cached_mc_got.
Qed.

Lemma pop_frame t k k' w :
  k' ≠ k →
  stored (snd (MongoTable.pop t k w)) t k' = stored w t k' ∧
  cached (snd (MongoTable.pop t k w)) t k' = cached w t k'.
Proof.
  intros Hne. rewrite pop_run.
  destruct (getitem_frame t k k' w Hne) as [Hs Hc].
  destruct (getitem t k w) as [[r | e] w']; simpl in *; [| done].
  split.
  - change (stored (mc_del t k ?w0) t k') with (stored w0 t k').
    rewrite stored_with_coll, find_one_remove_ne by (by apply SStr_ne).
    exact Hs.
  - by rewrite cached_mc_del_ne.
Qed.

End frame.

(** X4. A [set] of key [k] changes nothing for another key of the table:
    the store finds the same document for it, the cache holds the same
    entry, and so a read of it finds what it found before.  This is for a
    value whose key field, if it has to be assigned, is assigned in the dict
    itself; a view without the key field is written back to its parent table
    first, under the key of the view. *)
Theorem setitem_leaves_other_keys
    (t : table) (k k' : string) (r : pyval) (w : world) :
  well_keyed t → k' ≠ k → ¬ dispatches w t r →
  let w1 := snd (setitem t k r w) in
  stored w1 t k' = stored w t k' ∧
  cached w1 t k' = cached w t k' ∧
  lookup_doc w1 t k' = lookup_doc w t k'.
Proof.
  intros Hwk Hne Hnd w1.
  assert (stored w1 t k' = stored w t k' ∧ cached w1 t k' = cached w t k')
    as [Hs Hc].
  { subst w1. destruct (setitem_world t k r w Hnd) as (w0 & Hdb & HMC & [-> | Hw]).
    - by rewrite (stored_same_db _ _ _ _ Hdb), (cached_same_MC _ _ _ _ HMC).
    - destruct Hw as (data & Hk & ->).
      destruct (written_frame t k k' data w0 (Hk Hwk) Hne) as [-> ->].
      by rewrite (stored_same_db _ _ _ _ Hdb), (cached_same_MC _ _ _ _ HMC). }
  split_and!; [done.. |]. unfold lookup_doc. by rewrite Hs, Hc.
Qed.

Lemma setitem_leaves_other_keys_witness :
  let w := snd (alloc (Dict {[ "email" := SStr "bob@x.com" ]}) scenario2) in
  let w1 := snd (setitem MongoDBBackend.users "bob" (PRef 2) w) in
  fst (setitem MongoDBBackend.users "bob" (PRef 2) w) = Ok () ∧
  stored w1 MongoDBBackend.users "alice" = Some alice_doc ∧
  cached w1 MongoDBBackend.users "alice" = Some alice_doc.
Proof.
  intros w w1.
  assert (well_keyed MongoDBBackend.users) as Hwk by (intros H; discriminate H).
  assert ("alice" ≠ "bob") as Hne by (intros H; discriminate H).
  assert (¬ dispatches w MongoDBBackend.users (PRef 2)) as Hnd.
  { apply (not_dispatches_plain w MongoDBBackend.users 2
             {[ "email" := SStr "bob@x.com" ]}).
    vm_compute. reflexivity. }
  destruct (setitem_leaves_other_keys MongoDBBackend.users "bob" "alice"
              (PRef 2) w Hwk Hne Hnd) as (Hs & Hc & _).
  split; [vm_compute; reflexivity |].
  split.
  - transitivity (stored w MongoDBBackend.users "alice"); [exact Hs |].
    exact scenario2_stored.
  - transitivity (cached w MongoDBBackend.users "alice"); [exact Hc |].
    exact scenario2_cached.
Defined.

(** X5. Reading, testing or removing key [k] changes nothing for another
    key of the table: neither the document the store finds for it nor its
    cache entry. *)
Theorem reads_and_pop_leave_other_keys (t : table) (k k' : string) (w : world) :
  k' ≠ k →
  (stored (snd (getitem t k w)) t k' = stored w t k' ∧
   cached (snd (getitem t k w)) t k' = cached w t k') ∧
  (stored (snd (MongoTable.__contains__ t k w)) t k' = stored w t k' ∧
   cached (snd (MongoTable.__contains__ t k w)) t k' = cached w t k') ∧
  (stored (snd (MongoTable.pop t k w)) t k' = stored w t k' ∧
   cached (snd (MongoTable.pop t k w)) t k' = cached w t k').
Proof.
  intros Hne. split; [| split].
  - by apply getitem_frame.
  - by apply contains_frame.
  - by apply pop_frame.
Qed.

Lemma reads_and_pop_leave_other_keys_witness :
  stored (snd (MongoTable.pop MongoDBBackend.users "bob" scenario2))
    MongoDBBackend.users "alice" = Some alice_doc ∧
  cached (snd (getitem MongoDBBackend.users "bob" scenario2))
    MongoDBBackend.users "alice" = Some alice_doc.
Proof.
  assert ("alice" ≠ "bob") as Hne by (intros H; discriminate H).
  destruct (reads_and_pop_leave_other_keys MongoDBBackend.users "bob" "alice"
              scenario2 Hne) as ([_ Hc] & _ & [Hs _]).
  split.
  - rewrite Hs. exact scenario2_stored.
  - rewrite Hc. exact scenario2_cached.
Defined.

(** X6. The reads ([get], [contains], [len], [iter], [iteritems]) write no
    collection; [pop] writes no collection but the table's own; [set] writes
    no collection but the table's own and, when it is given a view without
    the key field of the table, that of the parent table of the view. *)
Theorem table_writes_own_collection (t : table) (k : string) (w : world) :
  db (snd (getitem t k w)) = db w ∧
  db (snd (MongoTable.__contains__ t k w)) = db w ∧
  db (snd (MongoTable.__len__ t w)) = db w ∧
  db (snd (MongoTable.__iter__ t w)) = db w ∧
  db (snd (MongoTable.iteritems t w)) = db w ∧
  ∀ name : string, name ≠ _coll t →
    (∀ r,
       (∀ l parent root_key d,
          r = PRef l → heap w !! l = Some (MutableDict parent root_key d) →
          d !! _key_name t = None → name ≠ _coll parent) →
       db (snd (setitem t k r w)) !! name = db w !! name) ∧
    (∀ r, ¬ dispatches w t r →
       db (snd (setitem t k r w)) !! name = db w !! name) ∧
    db (snd (MongoTable.pop t k w)) !! name = db w !! name.
Proof.
  split_and!; [apply getitem_db | | done.. |].
  - rewrite contains_run. by destruct (lookup_doc w t k).
  - intros name Hne. split_and!.
    + intros r Hparent. by apply setitem_db_other.
    + intros r Hnd. apply setitem_db_other; [done |].
      intros l parent root_key d -> Hl Hd. exfalso. apply Hnd.
      by exists l, parent, root_key, d.
    + rewrite pop_run. pose proof (getitem_db t k w) as Hdb.
      destruct (getitem t k w) as [[r | e] w']; simpl in *; [| by rewrite Hdb].
      by rewrite lookup_insert_ne, Hdb.
Qed.

(** ** Cache coherence *)

Section coherence.
Implicit Types (t : table) (k : string) (w : world) (d data : record).

Lemma lookup_doc_stored t k d w :
  coherent_at w t k → lookup_doc w t k = Some d → stored w t k = Some d.
Proof.
  intros Hc. unfold lookup_doc.
  destruct (cached w t k) as [d0 |] eqn:Hd; [| done].
  intros [= <-]. by apply Hc.
Qed.

Lemma coherent_no_entries t w : mc_entries w = ∅ → coherent t w.
Proof.
  intros He k d. unfold cached. unfold mc_entries in He.
  destruct (cache (_MC w)) as [c |]; simpl in *; [| done].
  by rewrite He, lookup_empty.
Qed.

Lemma written_coherent_at t k k0 data w :
  data !! _key_name t = Some (SStr k) →
  coherent_at w t k0 → coherent_at (snd (written t k data w)) t k0.
Proof.
  intros Hk Hc. destruct (decide (k0 = k)) as [-> | Hne].
  - unfold written. destruct (Collection.update _ _ _ _); simpl; [| done].
    intros d. by rewrite cached_mc_del.
  - intros d. destruct (written_frame t k k0 data w Hk Hne) as [-> ->]. apply Hc.
Qed.

Lemma refreshed_coherent_at t k k0 d w :
  stored w t k = Some d →
  coherent_at w t k0 → coherent_at (mc_put t k d (mc_got t k w)) t k0.
Proof.
  intros Hs Hc. destruct (decide (k0 = k)) as [-> | Hne].
  - intros d'. rewrite cached_mc_put. simpl.
    destruct (cache (_MC w)); simpl; [| done]. by intros [= <-].
  - intros d'. rewrite cached_mc_put_ne, cached_mc_got by done. apply Hc.
Qed.

Lemma got_coherent_at t k k0 w :
  coherent_at w t k0 → coherent_at (mc_got t k w) t k0.
Proof. intros Hc d. rewrite cached_mc_got. apply Hc. Qed.

Lemma getitem_coherent_at t k k0 w :
  coherent_at w t k → coherent_at w t k0 →
  coherent_at (snd (getitem t k w)) t k0.
Proof.
  intros Hk Hc. destruct (getitem_world t k w) as [Hdb HMC].
  destruct (lookup_doc w t k) as [d |] eqn:Hl.
  - eapply (coherent_at_same (mc_put t k d (mc_got t k w))); [done.. |].
    apply refreshed_coherent_at; [| done]. by apply lookup_doc_stored.
  - eapply (coherent_at_same (mc_got t k w)); [done.. |].
    by apply got_coherent_at.
Qed.

Lemma contains_coherent_at t k k0 w :
  coherent_at w t k → coherent_at w t k0 →
  coherent_at (snd (MongoTable.__contains__ t k w)) t k0.
Proof.
  intros Hk Hc. rewrite contains_run.
  destruct (lookup_doc w t k) as [d |] eqn:Hl; simpl.
  - apply refreshed_coherent_at; [| done]. by apply lookup_doc_stored.
  - by apply got_coherent_at.
Qed.

Lemma pop_coherent_at t k k0 w :
  coherent_at w t k → coherent_at w t k0 →
  coherent_at (snd (MongoTable.pop t k w)) t k0.
Proof.
  intros Hk Hc. rewrite pop_run.
  pose proof (getitem_coherent_at t k k0 w Hk Hc) as Hc'.
  destruct (getitem t k w) as [[r | e] w']; simpl in *; [| done].
  destruct (decide (k0 = k)) as [-> | Hne].
  - intros d. by rewrite cached_mc_del.
  - intros d. rewrite cached_mc_del_ne by done.
    change (stored (mc_del t k ?w0) t k0) with (stored w0 t k0).
    rewrite stored_with_coll, find_one_remove_ne by (by apply SStr_ne).
    apply Hc'.
Qed.

End coherence.

(** X7. Coherence of cache and store is an invariant of a table: when every
    cache entry of the table is the document the store finds for its key,
    this still holds after any [get], [contains] or [pop] of the table, and
    after any [set] whose value is not a view without the key field of the
    table (which is written back to its parent table on the way), whether
    the operation returned or raised. *)
Theorem table_operations_keep_coherence (t : table) (k : string) (w : world) :
  coherent t w →
  (well_keyed t → ∀ r, ¬ dispatches w t r → coherent t (snd (setitem t k r w))) ∧
  coherent t (snd (getitem t k w)) ∧
  coherent t (snd (MongoTable.__contains__ t k w)) ∧
  coherent t (snd (MongoTable.pop t k w)).
Proof.
  intros Hc. split_and!.
  - intros Hwk r Hnd k0.
    destruct (setitem_world t k r w Hnd) as (w0 & Hdb & HMC & [-> | Hw]).
    + by eapply coherent_at_same.
    + destruct Hw as (data & Hk & ->). apply written_coherent_at; [by apply Hk |].
      by eapply coherent_at_same.
  - intros k0. by apply getitem_coherent_at.
  - intros k0. by apply contains_coherent_at.
  - intros k0. by apply pop_coherent_at.
Qed.

Lemma table_operations_keep_coherence_witness :
  coherent MongoDBBackend.users scenario1 ∧
  coherent MongoDBBackend.users
    (snd (setitem MongoDBBackend.users "alice" (PRef 0) scenario1)) ∧
  coherent MongoDBBackend.users
    (snd (getitem MongoDBBackend.users "alice" scenario1)) ∧
  coherent MongoDBBackend.users
    (snd (MongoTable.pop MongoDBBackend.users "alice" scenario1)).
Proof.
  assert (coherent MongoDBBackend.users scenario1) as Hc.
  { apply coherent_no_entries. vm_compute. reflexivity. }
  split; [exact Hc |].
  destruct (table_operations_keep_coherence MongoDBBackend.users "alice"
              scenario1 Hc) as (Hs & Hg & _ & Hp).
  split; [| split; [exact Hg | exact Hp]].
  apply Hs; [intros H; discriminate H |].
  apply (not_dispatches_plain scenario1 MongoDBBackend.users 0 alice).
  vm_compute. reflexivity.
Defined.

(** ** Counting documents *)

Section counting.
Import Collection.
Implicit Types (t : table) (k : string) (w : world) (d data : record)
  (c : list record) (f : string) (v : scalar).

Lemma replace_length c f v data c' :
  replace c f v data = Ok c' → length c' = length c.
Proof.
  revert c'. induction c as [| d c IH]; simpl; intros c'.
  - by intros [= <-].
  - destruct (matches f v d).
    + destruct (replace_doc d data); simpl; [| done]. by intros [= <-].
    + destruct (replace c f v data); simpl; [| done].
      intros [= <-]. simpl. by rewrite (IH _ eq_refl).
Qed.

Lemma insert_app c data c' :
  insert c data = Ok c' → ∃ d, stored_as data d ∧ c' = c ++ [d].
Proof.
  unfold insert. destruct (data !! "_id") as [i |] eqn:Hid.
  - destruct (has_id c i); [done |]. intros [= <-].
    exists data. split; [by left | done].
  - intros [= <-]. eexists. split; [right; eauto | done].
Qed.

Lemma update_length c f v data c' :
  Collection.update c f v data = Ok c' →
  length c' = match find_one c f v with
              | Some _ => length c
              | None => S (length c)
              end.
Proof.
  unfold Collection.update. destruct (find_one c f v).
  - apply replace_length.
  - intros (d & _ & ->)%insert_app. rewrite length_app. simpl. lia.
Qed.

Lemma key_count_cons f v d c :
  key_count f v (d :: c) =
    (if matches f v d then 1 else 0) + key_count f v c.
Proof. unfold key_count. simpl. by destruct (matches f v d). Qed.

Lemma key_count_app f v c1 c2 :
  key_count f v (c1 ++ c2) = key_count f v c1 + key_count f v c2.
Proof.
  induction c1 as [| d c1 IH]; [done |].
  rewrite <- app_comm_cons, !key_count_cons, IH. lia.
Qed.

Lemma key_count_find_one f v c :
  key_count f v c = 0 ↔ find_one c f v = None.
Proof.
  induction c as [| d c IH]; [done |].
  rewrite key_count_cons. simpl. destruct (matches f v d); [| by rewrite <- IH].
  split; [lia | done].
Qed.

Lemma matches_same_field f v v' d d' :
  d !! f = Some v → d' !! f = Some v → matches f v' d' = matches f v' d.
Proof. unfold matches. intros -> ->. done. Qed.

Lemma key_count_replace c f v v' data c' :
  data !! f = Some v → replace c f v data = Ok c' →
  key_count f v' c' = key_count f v' c.
Proof.
  intros Hdata. revert c'. induction c as [| d c IH]; simpl; intros c'.
  - by intros [= <-].
  - destruct (matches f v d) eqn:Hm.
    + destruct (replace_doc d data) as [d' |] eqn:Hr; simpl; [| done].
      intros [= <-]. rewrite !key_count_cons.
      apply replace_doc_stored_as in Hr. apply matches_true in Hm.
      by rewrite (matches_same_field f v v' d d' Hm (stored_as_lookup _ _ _ _ Hr Hdata)).
    + destruct (replace c f v data); simpl; [| done].
      intros [= <-]. rewrite !key_count_cons. by rewrite (IH _ eq_refl).
Qed.

Lemma key_count_update c f v v' data c' :
  data !! f = Some v → Collection.update c f v data = Ok c' →
  key_count f v' c' =
    match find_one c f v with
    | Some _ => key_count f v' c
    | None => key_count f v' c + (if decide (v' = v) then 1 else 0)
    end.
Proof.
  intros Hdata. unfold Collection.update. destruct (find_one c f v).
  - by apply key_count_replace.
  - intros (d & Hd & ->)%insert_app.
    rewrite key_count_app. f_equal.
    pose proof (stored_as_lookup _ _ _ _ Hd Hdata) as Hf.
    unfold key_count, matches. simpl. rewrite Hf.
    destruct (decide (v' = v)) as [-> | Hne].
    + by rewrite bool_decide_eq_true_2.
    + rewrite bool_decide_eq_false_2; [done | congruence].
Qed.

Lemma unique_keys_update c f v data c' :
  data !! f = Some v → unique_keys f c →
  Collection.update c f v data = Ok c' →
  unique_keys f c' ∧ key_count f v c' = 1.
Proof.
  intros Hdata Hu Hup. split.
  - intros v'. rewrite (key_count_update _ _ _ v' _ _ Hdata Hup).
    destruct (find_one c f v) eqn:Hf; [apply Hu |].
    destruct (decide (v' = v)) as [-> | Hne]; [| pose proof (Hu v'); lia].
    apply key_count_find_one in Hf. lia.
  - rewrite (key_count_update _ _ _ v _ _ Hdata Hup).
    destruct (find_one c f v) eqn:Hf.
    + pose proof (Hu v).
      assert (key_count f v c ≠ 0); [| lia].
      rewrite key_count_find_one. congruence.
    + apply key_count_find_one in Hf. rewrite decide_True by done. lia.
Qed.

Lemma key_count_remove_le c f v v' :
  (key_count f v' (remove c f v) ≤ key_count f v' c)%nat.
Proof.
  unfold remove. induction c as [| d c IH]; simpl; [done |].
  destruct (matches f v d); simpl; rewrite ?key_count_cons; lia.
Qed.

Lemma remove_length c f v :
  length (remove c f v) + key_count f v c = length c.
Proof.
  unfold remove. induction c as [| d c IH]; simpl; [done |].
  rewrite key_count_cons. destruct (matches f v d); simpl; lia.
Qed.

(** A [setitem] that returns has written; when the assignment of the key
    field stayed in the dict object, this was its only write. *)
Lemma setitem_written t k r w w1 :
  ¬ dispatches w t r →
  setitem t k r w = (Ok (), w1) →
  ∃ data w0, db w0 = db w ∧ _MC w0 = _MC w ∧
    (well_keyed t → data !! _key_name t = Some (SStr k)) ∧
    written t k data w0 = (Ok (), w1).
Proof.
  intros Hnd. unfold setitem. destruct (_class t) eqn:Hc.
  - destruct r as [s | l]; [| done].
    rewrite single_setitem_scalar. intros Hw.
    eexists _, w. split_and!; [done.. | | exact Hw]. intros Hwk.
    rewrite lookup_insert_ne by (by intros ?; apply Hwk).
    apply lookup_singleton_eq.
  - destruct r as [s | l]; [done |].
    destruct (heap w !! l) as [o |] eqn:Hl.
    + rewrite (multi_setitem_ref _ _ _ _ _ Hl Hnd).
      destruct (items o !! _key_name t) as [x |] eqn:Hx.
      * case_bool_decide as Hxk; [subst x | done]. intros Hw.
        by exists (items o), w.
      * intros Hw. eexists _, (with_heap _ w).
        split_and!; [done.. | | exact Hw]. intros _. apply lookup_insert_eq.
    + by rewrite multi_setitem_dangling.
Qed.

Lemma written_coll t k data w w1 :
  written t k data w = (Ok (), w1) →
  Collection.update (coll_of t w) (_key_name t) (SStr k) data = Ok (coll_of t w1).
Proof.
  unfold written. destruct (Collection.update _ _ _ _) as [c' |]; [| done].
  intros [= <-].
  change (coll_of t (mc_del t k ?w0)) with (coll_of t w0).
  by rewrite coll_of_with_coll.
Qed.

End counting.

(** X8. [set] is an upsert: when it returns, the collection has one
    document more if the store had none for the key, and as many as before
    if it had one.  This is for a value that is not a view without the key
    field of the table: such a view is also written to its parent table,
    which can share the collection. *)
Theorem setitem_length (t : table) (k : string) (r : pyval) (w w1 : world) :
  ¬ dispatches w t r →
  setitem t k r w = (Ok (), w1) →
  ∃ n, MongoTable.__len__ t w = (Ok n, w) ∧
       MongoTable.__len__ t w1
       = (Ok (match stored w t k with Some _ => n | None => S n end), w1).
Proof.
  intros Hnd Hset.
  destruct (setitem_written _ _ _ _ _ Hnd Hset) as (data & w0 & Hdb & _ & _ & Hw).
  apply written_coll in Hw. rewrite (coll_of_same_db _ _ _ Hdb) in Hw.
  apply update_length in Hw.
  exists (length (coll_of t w)). split; [done |].
  unfold MongoTable.__len__. rewrite bind_run. simpl.
  unfold Collection.count, stored. by rewrite Hw.
Qed.

Lemma setitem_length_witness :
  ∃ n, MongoTable.__len__ MongoDBBackend.users scenario0 = (Ok n, scenario0) ∧
       MongoTable.__len__ MongoDBBackend.users scenario1 = (Ok (S n), scenario1).
Proof.
  apply (setitem_length MongoDBBackend.users "alice" (PRef 0)
           scenario0 scenario1); [| exact scenario1_set].
  apply (not_dispatches_plain scenario0 MongoDBBackend.users 0 alice).
  vm_compute. reflexivity.
Defined.

Section counting_worlds.
Implicit Types (t : table) (k : string) (w : world).

(** The collection [setitem] leaves: the old one, or the old one after the
    upsert. *)
Lemma setitem_coll t k r w :
  ¬ dispatches w t r →
  coll_of t (snd (setitem t k r w)) = coll_of t w ∨
  ∃ data, (well_keyed t → data !! _key_name t = Some (SStr k)) ∧
    Collection.update (coll_of t w) (_key_name t) (SStr k) data
    = Ok (coll_of t (snd (setitem t k r w))).
Proof.
  intros Hnd.
  destruct (setitem_world t k r w Hnd) as (w0 & Hdb & _ & [-> | Hw]).
  - left. by apply coll_of_same_db.
  - destruct Hw as (data & Hk & ->). unfold written.
    rewrite (coll_of_same_db _ _ _ Hdb).
    destruct (Collection.update _ _ _ _) as [c' |] eqn:Hu; simpl.
    + right. exists data. split; [done |].
      change (coll_of t (mc_del t k ?w0)) with (coll_of t w0).
      by rewrite coll_of_with_coll.
    + left. by apply coll_of_same_db.
Qed.

Lemma pop_coll t k w :
  coll_of t (snd (MongoTable.pop t k w)) = coll_of t w ∨
  (∃ x, fst (MongoTable.pop t k w) = Ok x) ∧
  coll_of t (snd (MongoTable.pop t k w))
  = Collection.remove (coll_of t w) (_key_name t) (SStr k).
Proof.
  rewrite pop_run. pose proof (getitem_db t k w) as Hdb.
  destruct (getitem t k w) as [[x | e] w']; simpl in *.
  - right. split; [by eexists |].
    change (coll_of t (mc_del t k ?w0)) with (coll_of t w0).
    by rewrite coll_of_with_coll, (coll_of_same_db _ _ _ Hdb).
  - left. by apply coll_of_same_db.
Qed.

End counting_worlds.

(** X9. Keys stay unique: on a collection with at most one document for
    each key, [pop] leaves at most one for each key, and so does a [set]
    whose value is not a view without the key field of the table (such a
    view is written to its parent table too, which can share the
    collection); such a [set] that returns leaves exactly one for its
    key. *)
Theorem setitem_and_pop_keep_keys_unique (t : table) (k : string) (w : world) :
  well_keyed t →
  unique_keys (_key_name t) (coll_of t w) →
  (∀ r, ¬ dispatches w t r →
        unique_keys (_key_name t) (coll_of t (snd (setitem t k r w)))) ∧
  (∀ r w1, ¬ dispatches w t r → setitem t k r w = (Ok (), w1) →
           key_count (_key_name t) (SStr k) (coll_of t w1) = 1) ∧
  unique_keys (_key_name t) (coll_of t (snd (MongoTable.pop t k w))).
Proof.
  intros Hwk Hu. split_and!.
  - intros r Hnd.
    destruct (setitem_coll t k r w Hnd) as [-> | (data & Hk & Hup)]; [done |].
    by apply (unique_keys_update _ _ _ _ _ (Hk Hwk) Hu Hup).
  - intros r w1 Hnd Hset.
    destruct (setitem_written _ _ _ _ _ Hnd Hset) as (data & w0 & Hdb & _ & Hk & Hw).
    apply written_coll in Hw. rewrite (coll_of_same_db _ _ _ Hdb) in Hw.
    by apply (unique_keys_update _ _ _ _ _ (Hk Hwk) Hu Hw).
  - destruct (pop_coll t k w) as [-> | [_ ->]]; [done |].
    intros v. etrans; [apply key_count_remove_le | apply Hu].
Qed.

Lemma setitem_and_pop_keep_keys_unique_witness :
  unique_keys "login" (coll_of MongoDBBackend.users scenario0) ∧
  unique_keys "login" (coll_of MongoDBBackend.users scenario1) ∧
  key_count "login" (SStr "alice") (coll_of MongoDBBackend.users scenario1) = 1.
Proof.
  assert (well_keyed MongoDBBackend.users) as Hwk by (intros H; discriminate H).
  assert (unique_keys "login" (coll_of MongoDBBackend.users scenario0)) as Hu.
  { intros v. vm_compute. lia. }
  split; [exact Hu |].
  destruct (setitem_and_pop_keep_keys_unique MongoDBBackend.users "alice"
              scenario0 Hwk Hu) as (Hall & Hone & _).
  assert (¬ dispatches scenario0 MongoDBBackend.users (PRef 0)) as Hnd.
  { apply (not_dispatches_plain scenario0 MongoDBBackend.users 0 alice).
    vm_compute. reflexivity. }
  split.
  - exact (Hall (PRef 0) Hnd).
  - exact (Hone (PRef 0) scenario1 Hnd scenario1_set).
Defined.

(** X10. A [pop] that returns removes every document of its key: the
    length drops by their number, and by at least one when the store has a
    document for the key. *)
Theorem pop_length (t : table) (k : string) (x : pyval) (w w' : world) :
  MongoTable.pop t k w = (Ok x, w') →
  ∃ n n', MongoTable.__len__ t w = (Ok n, w) ∧
          MongoTable.__len__ t w' = (Ok n', w') ∧
          n' + key_count (_key_name t) (SStr k) (coll_of t w) = n ∧
          (is_Some (stored w t k) → (n' < n)%nat).
Proof.
  intros Hpop. rewrite pop_run in Hpop.
  pose proof (getitem_db t k w) as Hdb.
  destruct (getitem t k w) as [[y | e] w2]; [| done]. simpl in Hdb.
  injection Hpop as -> <-.
  set (w' := mc_del t k _).
  assert (coll_of t w' = Collection.remove (coll_of t w) (_key_name t) (SStr k))
    as Hrem.
  { unfold w'. change (coll_of t (mc_del t k ?w0)) with (coll_of t w0).
    by rewrite coll_of_with_coll, (coll_of_same_db _ _ _ Hdb). }
  pose proof (remove_length (coll_of t w) (_key_name t) (SStr k)) as Hlen.
  rewrite <- Hrem in Hlen.
  exists (length (coll_of t w)), (length (coll_of t w')).
  split_and!; [done.. |].
  intros [d Hd].
  assert (key_count (_key_name t) (SStr k) (coll_of t w) ≠ 0); [| lia].
  rewrite key_count_find_one. unfold stored in Hd. congruence.
Qed.

Lemma pop_length_witness :
  ∃ x w', MongoTable.pop MongoDBBackend.users "alice" scenario2 = (Ok x, w') ∧
    MongoTable.__len__ MongoDBBackend.users scenario2 = (Ok 1, scenario2) ∧
    MongoTable.__len__ MongoDBBackend.users w' = (Ok 0, w').
Proof.
  destruct (MongoTable.pop MongoDBBackend.users "alice" scenario2)
    as [[x | e] w'] eqn:Hpop; [| vm_compute in Hpop; discriminate Hpop].
  exists x, w'. split; [reflexivity |].
  destruct (pop_length MongoDBBackend.users "alice" x scenario2 w' Hpop)
    as (n & n' & Hn & Hn' & Hsum & Hlt).
  assert (n = 1) as -> by (injection Hn as <-; vm_compute; reflexivity).
  split; [exact Hn |].
  assert (n' = 0) as ->; [| exact Hn'].
  assert (is_Some (stored scenario2 MongoDBBackend.users "alice")) as Hs
    by (rewrite scenario2_stored; eexists; reflexivity).
  apply Hlt in Hs. lia.
Defined.

(** ** Enumeration *)

Section enumeration.
Implicit Types (t : table) (k : string) (w : world) (d : record)
  (c : list record).

Lemma item_key key_name (i : record) x d :
  MongoTable.item key_name i = Ok (x, d) → MongoTable.key_of key_name i = Ok x.
Proof.
  unfold MongoTable.item.
  destruct (MongoTable.dict_pop key_name i) as [d1 |]; simpl; [| done].
  destruct (MongoTable.dict_pop "_id" d1) as [d2 |]; simpl; [| done].
  destruct (MongoTable.key_of key_name i); simpl; [| done]. by intros [= -> _].
Qed.

Lemma run_gen_items_keys key_name c ps :
  MongoTable.run_gen (MongoTable.item key_name) c = Ok ps →
  MongoTable.run_gen (MongoTable.key_of key_name) c = Ok ps.*1 ∧
  length ps = length c.
Proof.
  revert ps. induction c as [| i c IH]; simpl; intros ps.
  - by intros [= <-].
  - destruct (MongoTable.item key_name i) as [[x d] |] eqn:Hi; simpl; [| done].
    destruct (MongoTable.run_gen _ c) as [ps' |]; simpl; [| done].
    intros [= <-]. destruct (IH ps' eq_refl) as [-> Hlen].
    rewrite (item_key _ _ _ _ Hi). simpl. by rewrite Hlen.
Qed.

(** The generator stops at the first element that raises. *)
Lemma run_gen_raises {A B} (f : A → outcome B) (P : exn → Prop) (l : list A) :
  (∀ a e, f a = Raise e → P e) →
  Exists (λ a, ∃ e, f a = Raise e) l →
  ∃ e, MongoTable.run_gen f l = Raise e ∧ P e.
Proof.
  intros HP. induction l as [| a l IH]; intros Hex.
  - by apply Exists_nil in Hex.
  - simpl. destruct (f a) as [b | e] eqn:Hfa; simpl.
    + apply Exists_cons in Hex as [[e He] | Hex]; [congruence |].
      destruct (IH Hex) as (e & -> & He). simpl. eauto.
    + exists e. split; [done |]. by eapply HP.
Qed.

Lemma key_of_raises key_name (i : record) e :
  MongoTable.key_of key_name i = Raise e → e = KeyError key_name.
Proof.
  unfold MongoTable.key_of. destruct (i !! key_name); [done |]. by intros [= <-].
Qed.

Lemma item_raises key_name (i : record) e :
  MongoTable.item key_name i = Raise e →
  e = KeyError key_name ∨ e = KeyError "_id".
Proof.
  unfold MongoTable.item, MongoTable.dict_pop.
  destruct (i !! key_name) as [x |] eqn:Hx; simpl; [| intros [= <-]; by left].
  destruct (delete key_name i !! "_id"); simpl; [| intros [= <-]; by right].
  unfold MongoTable.key_of. by rewrite Hx.
Qed.

Lemma item_keyless key_name (i : record) :
  i !! key_name = None → MongoTable.item key_name i = Raise (KeyError key_name).
Proof. intros Hi. unfold MongoTable.item, MongoTable.dict_pop. by rewrite Hi. Qed.

Lemma item_id_keyed (i : record) :
  MongoTable.item "_id" i = Raise (KeyError "_id").
Proof.
  unfold MongoTable.item, MongoTable.dict_pop.
  destruct (i !! "_id"); simpl; [| done]. by rewrite lookup_delete_eq.
Qed.

Lemma iteritems_run t w :
  MongoTable.iteritems t w
  = (MongoTable.run_gen (MongoTable.item (_key_name t)) (coll_of t w), w).
Proof. reflexivity. Qed.

Lemma iter_run t w :
  MongoTable.__iter__ t w
  = (MongoTable.run_gen (MongoTable.key_of (_key_name t)) (coll_of t w), w).
Proof. reflexivity. Qed.

End enumeration.

(** X11. The three views of a collection agree: when [iteritems] runs to
    its end, [__iter__] yields the keys of its pairs in the same order and
    [__len__] is the number of pairs; none of them changes the world. *)
Theorem iteritems_iter_len_agree
    (t : table) (ps : list (scalar * record)) (w w' : world) :
  MongoTable.iteritems t w = (Ok ps, w') →
  w' = w ∧
  MongoTable.__iter__ t w = (Ok ps.*1, w) ∧
  MongoTable.__len__ t w = (Ok (length ps), w).
Proof.
  rewrite iteritems_run, iter_run. intros [= Hps <-].
  destruct (run_gen_items_keys _ _ _ Hps) as [-> Hlen].
  split_and!; [done.. |].
  unfold MongoTable.__len__. rewrite bind_run. simpl.
  unfold Collection.count. by rewrite Hlen.
Qed.

Lemma iteritems_iter_len_agree_witness :
  MongoTable.iteritems MongoDBBackend.users scenario2
    = (Ok [(SStr "alice", {[ "email" := SStr "a@x.com" ]})], scenario2) ∧
  MongoTable.__iter__ MongoDBBackend.users scenario2
    = (Ok [SStr "alice"], scenario2) ∧
  MongoTable.__len__ MongoDBBackend.users scenario2 = (Ok 1, scenario2).
Proof.
  assert (MongoTable.iteritems MongoDBBackend.users scenario2
    = (Ok [(SStr "alice", {[ "email" := SStr "a@x.com" ]})], scenario2)) as Hit
    by (vm_compute; reflexivity).
  split; [exact Hit |].
  destruct (iteritems_iter_len_agree MongoDBBackend.users _ scenario2 scenario2 Hit)
    as (_ & Hiter & Hlen).
  split; [exact Hiter | exact Hlen].
Defined.

(** X12. A table keyed by ['_id'] cannot be enumerated with [iteritems]:
    the key field is popped first and the pop of ['_id'] that follows finds
    nothing, so on every non-empty collection the generator raises
    KeyError('_id') at its first document. *)
Theorem iteritems_of_id_keyed_table_raises (t : table) (w : world) :
  _key_name t = "_id" →
  coll_of t w ≠ [] →
  MongoTable.iteritems t w = (Raise (KeyError "_id"), w).
Proof.
  intros Hk Hne. rewrite iteritems_run, Hk.
  destruct (coll_of t w) as [| i c]; [done |]. simpl.
  by rewrite item_id_keyed.
Qed.

Lemma iteritems_of_id_keyed_table_raises_witness :
  MongoTable.iteritems (Table MultiValue "users" "_id" "users") scenario1
  = (Raise (KeyError "_id"), scenario1).
Proof.
  apply (iteritems_of_id_keyed_table_raises
           (Table MultiValue "users" "_id" "users") scenario1).
  - reflexivity.
  - intros H. apply (f_equal length) in H. vm_compute in H. discriminate H.
Defined.

(** X13. A document without the key field breaks the enumeration:
    [__iter__] raises KeyError of the key field, and [iteritems] raises
    KeyError of the key field or of ['_id'], whichever pop fails first. *)
Theorem enumeration_raises_on_keyless_document (t : table) (w : world) :
  Exists (λ d : record, d !! _key_name t = None) (coll_of t w) →
  MongoTable.__iter__ t w = (Raise (KeyError (_key_name t)), w) ∧
  ∃ f, MongoTable.iteritems t w = (Raise (KeyError f), w) ∧
       (f = _key_name t ∨ f = "_id").
Proof.
  intros Hex. rewrite iter_run, iteritems_run. split.
  - destruct (run_gen_raises (MongoTable.key_of (_key_name t))
                (λ e, e = KeyError (_key_name t)) (coll_of t w))
      as (e & -> & ->); [apply key_of_raises | | done].
    eapply Exists_impl; [exact Hex |]. intros d Hd.
    exists (KeyError (_key_name t)). unfold MongoTable.key_of. by rewrite Hd.
  - destruct (run_gen_raises (MongoTable.item (_key_name t))
                (λ e, e = KeyError (_key_name t) ∨ e = KeyError "_id") (coll_of t w))
      as (e & -> & [-> | ->]); [apply item_raises | | eauto..].
    eapply Exists_impl; [exact Hex |]. intros d Hd.
    eexists. by apply item_keyless.
Qed.

Lemma enumeration_raises_on_keyless_document_witness :
  MongoTable.__iter__ MongoDBBackend.users keyless_world
    = (Raise (KeyError "login"), keyless_world) ∧
  ∃ f, MongoTable.iteritems MongoDBBackend.users keyless_world
       = (Raise (KeyError f), keyless_world) ∧
       (f = "login" ∨ f = "_id").
Proof.
  apply (enumeration_raises_on_keyless_document MongoDBBackend.users keyless_world).
  replace (coll_of MongoDBBackend.users keyless_world)
    with [ ({[ "_id" := SOid 1; "email" := SStr "x@x.com" ]} : record) ]
    by (vm_compute; reflexivity).
  apply Exists_cons_hd. vm_compute. reflexivity.
Defined.

(** X14. What was set is enumerated: after a [set] that returned, on a
    collection whose documents carry key field and ['_id'], [iteritems]
    runs to its end and yields the key with the fields of the caller's dict
    as the call left it, without the key field and ['_id'].  These are the
    fields that were passed, unless the dict is a view without the key field
    of the table, which can have gained the key field of its parent. *)
Theorem iteritems_after_setitem
    (t : table) (k : string) (r : pyval) (w w1 : world) :
  well_keyed t → _key_name t ≠ "_id" →
  coll_ok (_key_name t) (coll_of t w) →
  setitem t k r w = (Ok (), w1) →
  ∃ ps, MongoTable.iteritems t w1 = (Ok ps, w1) ∧
    match r with
    | PScalar s => (SStr k, {[ "val" := s ]}) ∈ ps
    | PRef l =>
        ∃ o, heap w !! l = Some o ∧
          (SStr k, delete "_id" (delete (_key_name t) (items (injected t k o))))
            ∈ ps ∧
          (¬ dispatches w t r →
           (SStr k, delete "_id" (delete (_key_name t) (items o))) ∈ ps)
    end.
Proof.
  intros Hwk Hne Hok Hset.
  pose proof (setitem_coll_ok t k r w Hok) as Hok1.
  rewrite Hset in Hok1. simpl in Hok1.
  destruct (run_gen_items _ _ Hne Hok1) as (ps & Hps & Hall).
  exists ps. split; [by rewrite iteritems_run, Hps |].
  destruct (setitem_ok _ _ _ _ _ Hwk Hset)
    as (data & d & w0 & Hk & Hd & Hs & _ & _ & Hr).
  apply find_one_Some in Hs as [Hdk Hin].
  apply list_elem_of_lookup in Hin as [i Hi].
  destruct (Forall2_lookup_l _ _ _ _ _ Hall Hi) as ([x d'] & Hp & Hx & Hd').
  simpl in Hx, Hd'. rewrite Hdk in Hx. injection Hx as <-.
  assert (d' = delete "_id" (delete (_key_name t) data)) as Hd'data.
  { rewrite Hd'. apply map_eq. intros f.
    destruct (decide (f = "_id")) as [-> | Hf1]; [by rewrite !lookup_delete_eq |].
    rewrite !(lookup_delete_ne _ "_id") by done.
    destruct (decide (f = _key_name t)) as [-> | Hf2]; [by rewrite !lookup_delete_eq |].
    rewrite !lookup_delete_ne by done. by apply stored_as_other. }
  apply list_elem_of_lookup_2 in Hp. destruct r as [s | l].
  - destruct Hr as (Hc & _ & _ & ->).
    assert (d' = {[ "val" := s ]}) as <-; [| done].
    rewrite Hd'data. apply map_eq. intros f.
    destruct (decide (f = "_id")) as [-> | Hf1].
    { rewrite lookup_delete_eq. by rewrite lookup_singleton_ne. }
    rewrite lookup_delete_ne by done.
    destruct (decide (f = _key_name t)) as [-> | Hf2].
    { rewrite lookup_delete_eq, lookup_singleton_ne; [done |].
      intros Hv. by apply (Hwk Hc). }
    rewrite lookup_delete_ne by done.
    destruct (decide (f = "val")) as [-> | Hf3].
    + by rewrite lookup_insert_eq, lookup_singleton_eq.
    + by rewrite lookup_insert_ne, !lookup_singleton_ne.
  - destruct Hr as (_ & o & Hl & -> & _). exists o.
    split; [done |]. rewrite <- Hd'data. split; [done |].
    intros Hnd.
    assert (d' = delete "_id" (delete (_key_name t) (items o))) as <-; [| done].
    rewrite Hd'data. destruct (items o !! _key_name t) as [x |] eqn:Hx.
    + unfold injected. by rewrite Hx.
    + rewrite (items_injected_plain _ _ _ _ _ Hl Hnd Hx), items_with_items.
      by rewrite delete_insert_eq.
Qed.

Lemma iteritems_after_setitem_witness :
  ∃ ps, MongoTable.iteritems MongoDBBackend.users scenario1 = (Ok ps, scenario1) ∧
    ∃ o, heap scenario0 !! 0 = Some o ∧
      (SStr "alice", delete "_id" (delete "login" (items o))) ∈ ps.
Proof.
  destruct (iteritems_after_setitem MongoDBBackend.users "alice" (PRef 0)
              scenario0 scenario1) as (ps & Hps & o & Hl & _ & Hin).
  - intros H. discriminate H.
  - intros H. discriminate H.
  - replace (coll_of MongoDBBackend.users scenario0) with ([] : list record)
      by (vm_compute; reflexivity).
    constructor.
  - exact scenario1_set.
  - exists ps. split; [exact Hps |]. exists o. split; [exact Hl |].
    apply Hin.
    apply (not_dispatches_plain scenario0 MongoDBBackend.users 0 alice).
    vm_compute. reflexivity.
Defined.

(** ** Views, once more *)

Section views.
Implicit Types (t : table) (k f : string) (v : scalar) (w : world)
  (d dv : record) (l : loc).

(** An assignment on a view that keeps key and [_id] of the stored
    document. *)
Lemma view_setitem_run t k l f v dv d0 w :
  _class t = MultiValue →
  heap w !! l = Some (MutableDict t k dv) →
  stored w t k = Some d0 →
  (<[f := v]> dv) !! _key_name t = Some (SStr k) →
  (<[f := v]> dv) !! "_id" = d0 !! "_id" →
  ∃ w2, MongoMutableDict.__setitem__ l f v w = (Ok (), w2) ∧
    heap w2 = <[l := MutableDict t k (<[f := v]> dv)]> (heap w) ∧
    db w2 !! _coll t = Some (coll_of t w2) ∧
    stored w2 t k = Some (<[f := v]> dv) ∧ cached w2 t k = None.
Proof.
  intros Hc Hl Hs Hk Hid.
  set (dv' := <[f := v]> dv) in *.
  set (h2 := <[l := MutableDict t k dv']> (heap w)).
  assert (h2 !! l = Some (MutableDict t k dv')) as Hh2.
  { unfold h2. apply list_lookup_insert_eq. by eapply lookup_lt_Some. }
  destruct (written_replaces t k d0 dv' (with_heap h2 w)) as (w2 & Hw & Hheap & Hs2 & Hc2);
    [done.. |].
  exists w2. split_and!; [| done | | done..].
  - unfold MongoMutableDict.__setitem__, setitem_MutableDict. rewrite bind_run.
    unfold deref at 1. rewrite Hl.
    rewrite bind_run. unfold store at 1.
    change (World _ (db w) (_MC w)) with (with_heap h2 w).
    unfold setitem. rewrite Hc.
    rewrite (multi_setitem_run t k _ _ (with_heap h2 w) Hh2).
    unfold multi_written. simpl items.
    rewrite Hk, bool_decide_eq_true_2 by done. exact Hw.
  - revert Hw. unfold written.
    destruct (Collection.update _ _ _ _) as [c' |]; [| done].
    intros [= <-]. simpl. unfold coll_of. simpl.
    by rewrite lookup_insert_eq, lookup_total_insert_eq.
Qed.

Lemma multi_getitem_found t k d w :
  lookup_doc w t k = Some d →
  ∃ w1, MongoMultiValueTable.__getitem__ t k w = (Ok (PRef (length (heap w))), w1) ∧
    heap w1 = heap w ++ [MutableDict t k d] ∧
    db w1 = db w ∧ lookup_doc w1 t k = Some d.
Proof.
  intros Hl. rewrite multi_getitem_run, Hl. simpl.
  eexists. split_and!; [done.. |].
  rewrite <- (lookup_doc_refreshed _ _ _ _ Hl). by apply lookup_doc_same.
Qed.

End views.

(** X15. Two views of one record do not merge: each assignment writes its
    whole view back, so when a field is assigned on the first view and then
    another field on the second, the stored record is the second view, and
    the first assignment is lost. *)
Theorem second_view_overwrites_first
    (t : table) (k f1 f2 : string) (v1 v2 : scalar) (d : record) (w : world) :
  _class t = MultiValue →
  stored w t k = Some d → coherent_at w t k →
  f1 ≠ f2 →
  f1 ≠ _key_name t → f1 ≠ "_id" → f2 ≠ _key_name t → f2 ≠ "_id" →
  ∃ l1 w1 l2 w2 w3 w4,
    MongoMultiValueTable.__getitem__ t k w = (Ok (PRef l1), w1) ∧
    MongoMultiValueTable.__getitem__ t k w1 = (Ok (PRef l2), w2) ∧
    MongoMutableDict.__setitem__ l1 f1 v1 w2 = (Ok (), w3) ∧
    stored w3 t k = Some (<[f1 := v1]> d) ∧
    MongoMutableDict.__setitem__ l2 f2 v2 w3 = (Ok (), w4) ∧
    stored w4 t k = Some (<[f2 := v2]> d) ∧
    (<[f2 := v2]> d) !! f1 = d !! f1.
Proof.
  intros Hc Hs Hco Hne Hk1 Hi1 Hk2 Hi2.
  pose proof (coherent_lookup_doc _ _ _ _ Hs Hco) as Hl.
  destruct (multi_getitem_found t k d w Hl) as (w1 & Hg1 & Hh1 & Hdb1 & Hl1).
  destruct (multi_getitem_found t k d w1 Hl1) as (w2 & Hg2 & Hh2 & Hdb2 & Hl2).
  assert (stored w2 t k = Some d) as Hs2.
  { rewrite (stored_same_db _ _ _ _ Hdb2), (stored_same_db _ _ _ _ Hdb1). done. }
  assert (d !! _key_name t = Some (SStr k)) as Hdk
    by (by apply find_one_Some in Hs as [? _]).
  set (l1 := length (heap w)) in *. set (l2 := length (heap w1)) in *.
  assert (l1 < l2) as Hlt.
  { unfold l1, l2. rewrite Hh1, length_app. simpl. lia. }
  assert (heap w2 !! l1 = Some (MutableDict t k d)) as Hv1.
  { rewrite Hh2, lookup_app_l by done.
    rewrite Hh1. unfold l1. by rewrite lookup_app_r, Nat.sub_diag. }
  assert (heap w2 !! l2 = Some (MutableDict t k d)) as Hv2.
  { rewrite Hh2. unfold l2. by rewrite lookup_app_r, Nat.sub_diag. }
  destruct (view_setitem_run t k l1 f1 v1 d d w2 Hc Hv1 Hs2)
    as (w3 & Hset1 & Hh3 & _ & Hs3 & _).
  { by rewrite lookup_insert_ne. }
  { by rewrite lookup_insert_ne. }
  assert (heap w3 !! l2 = Some (MutableDict t k d)) as Hv2'.
  { rewrite Hh3, list_lookup_insert_ne by lia. exact Hv2. }
  destruct (view_setitem_run t k l2 f2 v2 d (<[f1 := v1]> d) w3 Hc Hv2' Hs3)
    as (w4 & Hset2 & _ & _ & Hs4 & _).
  { by rewrite lookup_insert_ne. }
  { by rewrite !lookup_insert_ne. }
  exists l1, w1, l2, w2, w3, w4.
  split_and!; [done.. |]. by rewrite lookup_insert_ne.
Qed.

Lemma second_view_overwrites_first_witness :
  ∃ l1 w1 l2 w2 w3 w4,
    MongoMultiValueTable.__getitem__ MongoDBBackend.users "alice" scenario1
      = (Ok (PRef l1), w1) ∧
    MongoMultiValueTable.__getitem__ MongoDBBackend.users "alice" w1
      = (Ok (PRef l2), w2) ∧
    MongoMutableDict.__setitem__ l1 "email" (SStr "b@x.com") w2 = (Ok (), w3) ∧
    stored w3 MongoDBBackend.users "alice"
      = Some (<["email" := SStr "b@x.com"]> alice_doc) ∧
    MongoMutableDict.__setitem__ l2 "phone" (SStr "555") w3 = (Ok (), w4) ∧
    stored w4 MongoDBBackend.users "alice"
      = Some (<["phone" := SStr "555"]> alice_doc) ∧
    (<["phone" := SStr "555"]> alice_doc) !! "email" = alice_doc !! "email".
Proof.
  apply (second_view_overwrites_first MongoDBBackend.users "alice"
           "email" "phone" (SStr "b@x.com") (SStr "555") alice_doc scenario1).
  - reflexivity.
  - exact scenario1_stored.
  - intros d Hd. vm_compute in Hd. discriminate Hd.
  - intros H. discriminate H.
  - intros H. discriminate H.
  - intros H. discriminate H.
  - intros H. discriminate H.
  - intros H. discriminate H.
Defined.

(** X16. An assignment to the key field that the table refuses has already
    changed the view: the field is written in the object before the table
    checks it, the AssertionError leaves store and cache as they were, and
    the view now differs from the stored record. *)
Theorem refused_key_assignment_dirties_view
    (t : table) (k : string) (l : loc) (d : record) (v : scalar) (w : world) :
  _class t = MultiValue →
  heap w !! l = Some (MutableDict t k d) →
  v ≠ SStr k →
  ∃ w',
    MongoMutableDict.__setitem__ l (_key_name t) v w = (Raise AssertionError, w') ∧
    heap w' !! l = Some (MutableDict t k (<[_key_name t := v]> d)) ∧
    db w' = db w ∧ _MC w' = _MC w.
Proof.
  intros Hc Hl Hv.
  set (h2 := <[l := MutableDict t k (<[_key_name t := v]> d)]> (heap w)).
  assert (h2 !! l = Some (MutableDict t k (<[_key_name t := v]> d))) as Hh2.
  { unfold h2. apply list_lookup_insert_eq. by eapply lookup_lt_Some. }
  exists (with_heap h2 w). split_and!; [| done..].
  unfold MongoMutableDict.__setitem__, setitem_MutableDict. rewrite bind_run.
  unfold deref at 1. rewrite Hl.
  rewrite bind_run. unfold store at 1.
  change (World _ (db w) (_MC w)) with (with_heap h2 w).
  unfold setitem. rewrite Hc.
  rewrite (multi_setitem_run t k _ _ (with_heap h2 w) Hh2).
  unfold multi_written. simpl items.
  rewrite lookup_insert_eq. by rewrite bool_decide_eq_false_2.
Qed.

Lemma refused_key_assignment_dirties_view_witness :
  ∃ w',
    MongoMutableDict.__setitem__ 1 "login" (SStr "bob") scenario2
      = (Raise AssertionError, w') ∧
    heap w' !! 1 = Some (MutableDict MongoDBBackend.users "alice"
                           (<["login" := SStr "bob"]> alice_doc)) ∧
    db w' = db scenario2 ∧ _MC w' = _MC scenario2.
Proof.
  apply (refused_key_assignment_dirties_view MongoDBBackend.users "alice" 1
           alice_doc (SStr "bob") scenario2).
  - reflexivity.
  - vm_compute. reflexivity.
  - intros H. discriminate H.
Defined.

(** ** Single-value tables at their edges *)

(** X17. A single-value table whose key field is named ['val'] loses what
    it is given: the dict display keeps one field, the value, so after a
    [set] of a new key with a value other than the key the read of the key
    raises KeyError and the key is not contained. *)
Theorem val_keyed_table_loses_value
    (t : table) (k : string) (s : scalar) (w : world) :
  _class t = SingleValue → _key_name t = "val" →
  s ≠ SStr k → stored w t k = None →
  ∃ w1,
    setitem t k (PScalar s) w = (Ok (), w1) ∧
    fst (getitem t k w1) = Raise (KeyError k) ∧
    fst (MongoTable.__contains__ t k w1) = Ok false.
Proof.
  intros Hc Hk Hs Hnone.
  unfold setitem. rewrite Hc, single_setitem_scalar, Hk.
  unfold written, Collection.update. rewrite Hk.
  unfold stored in Hnone. rewrite Hk in Hnone. rewrite Hnone.
  unfold Collection.insert.
  rewrite insert_singleton_eq, lookup_singleton_ne by done.
  eexists. split; [done |].
  set (w1 := mc_del t k _).
  assert (lookup_doc w1 t k = None) as Hl.
  { unfold lookup_doc, w1. rewrite cached_mc_del.
    change (stored (mc_del t k ?w0) t k) with (stored w0 t k).
    rewrite stored_with_coll, Hk, find_one_app, Hnone. simpl.
    unfold Collection.matches.
    rewrite lookup_insert_ne, lookup_singleton_eq by done.
    rewrite bool_decide_eq_false_2; [done | congruence]. }
  rewrite (getitem_not_found _ _ _ Hl), contains_run, Hl. done.
Qed.

Lemma val_keyed_table_loses_value_witness :
  ∃ w1,
    setitem table_val "debug" (PScalar (SBool true)) world0 = (Ok (), w1) ∧
    fst (getitem table_val "debug" w1) = Raise (KeyError "debug") ∧
    fst (MongoTable.__contains__ table_val "debug" w1) = Ok false.
Proof.
  apply (val_keyed_table_loses_value table_val "debug" (SBool true) world0).
  - reflexivity.
  - reflexivity.
  - intros H. discriminate H.
  - reflexivity.
Defined.

(** X18. [contains] and the read of a multi-value table agree: the key is
    contained exactly when the read returns a view, and not contained
    exactly when the read raises KeyError of the key; both leave the same
    cache and the same collections. *)
Theorem contains_agrees_with_getitem (t : table) (k : string) (w : world) :
  fst (MongoTable.__contains__ t k w)
    = Ok (bool_decide (is_Some (lookup_doc w t k))) ∧
  (fst (MongoTable.__contains__ t k w) = Ok true ↔
   ∃ l, fst (MongoMultiValueTable.__getitem__ t k w) = Ok (PRef l)) ∧
  (fst (MongoTable.__contains__ t k w) = Ok false ↔
   fst (MongoMultiValueTable.__getitem__ t k w) = Raise (KeyError k)) ∧
  _MC (snd (MongoTable.__contains__ t k w))
    = _MC (snd (MongoMultiValueTable.__getitem__ t k w)) ∧
  db (snd (MongoTable.__contains__ t k w))
    = db (snd (MongoMultiValueTable.__getitem__ t k w)).
Proof.
  rewrite contains_run, multi_getitem_run.
  destruct (lookup_doc w t k) as [d |]; simpl.
  - split_and!; [done | | | done..].
    + split; [intros _; by eexists | done].
    + split; intros H; discriminate H.
  - split_and!; [done | | | done..].
    + split; [intros H; discriminate H | intros [l H]; discriminate H].
    + done.
Qed.

(** X19. A document without ['val'] cannot be removed through a
    single-value table: [pop] reads first, the read raises KeyError('val')
    after it has put the document in the cache, and nothing is deleted. *)
Theorem single_pop_without_val_removes_nothing
    (t : table) (k : string) (d : record) (w : world) :
  _class t = SingleValue →
  lookup_doc w t k = Some d → d !! "val" = None →
  ∃ w',
    MongoTable.pop t k w = (Raise (KeyError "val"), w') ∧
    db w' = db w ∧
    (is_Some (cache (_MC w)) → cached w' t k = Some d).
Proof.
  intros Hc Hl Hv. rewrite pop_run. unfold getitem.
  rewrite Hc, single_getitem_run, Hl, Hv.
  eexists. split_and!; [done.. |].
  intros [c Hon]. rewrite cached_mc_put. simpl. by rewrite Hon.
Qed.

Lemma single_pop_without_val_removes_nothing_witness :
  ∃ w',
    MongoTable.pop users_as_single "alice" scenario1
      = (Raise (KeyError "val"), w') ∧
    db w' = db scenario1 ∧
    (is_Some (cache (_MC scenario1)) →
     cached w' users_as_single "alice" = Some alice_doc).
Proof.
  apply (single_pop_without_val_removes_nothing users_as_single "alice"
           alice_doc scenario1).
  - reflexivity.
  - vm_compute. reflexivity.
  - vm_compute. reflexivity.
Defined.

(** ** Repeated reads *)

Section repeat.
Implicit Types (t : table) (k : string) (w : world) (d : record).

Lemma getitem_ok_inv t k x w w2 :
  getitem t k w = (Ok x, w2) →
  ∃ d, lookup_doc w t k = Some d ∧
       (_class t = SingleValue → is_Some (d !! "val")).
Proof.
  unfold getitem. destruct (_class t) eqn:Hc.
  - rewrite single_getitem_run.
    destruct (lookup_doc w t k) as [d |]; [| done].
    destruct (d !! "val") as [v |] eqn:Hv; [| done].
    intros _. exists d. split; [done |]. by eexists.
  - rewrite multi_getitem_run.
    destruct (lookup_doc w t k) as [d |]; [| done].
    intros _. exists d. split; [done |]. done.
Qed.

Lemma mc_entries_refreshed t k d w :
  mc_entries (mc_put t k d (mc_got t k w)) =
    match cache (_MC w) with
    | Some _ => <[ns t k := d]> (mc_entries w)
    | None => ∅
    end.
Proof. unfold mc_entries. simpl. by destruct (cache (_MC w)). Qed.

End repeat.

(** X20. A read that returned can be repeated: the next read of the key
    returns too, both hand back the same document (the same scalar, or views
    of the same record), and the second read leaves the cache entries as the
    first left them. *)
Theorem getitem_is_repeatable
    (t : table) (k : string) (x : pyval) (w w2 : world) :
  getitem t k w = (Ok x, w2) →
  ∃ d y w3,
    getitem t k w2 = (Ok y, w3) ∧
    value_of t k d w2 x ∧ value_of t k d w3 y ∧
    db w3 = db w ∧ mc_entries w3 = mc_entries w2.
Proof.
  intros Hg. destruct (getitem_ok_inv _ _ _ _ _ Hg) as (d & Hl & Hval).
  destruct (getitem_found _ _ _ _ Hl Hval) as (x' & w2' & Hg' & Hv & Hdb & HMC & Hl2).
  rewrite Hg in Hg'. injection Hg' as <- <-.
  destruct (getitem_found _ _ _ _ Hl2 Hval) as (y & w3 & Hg2 & Hv2 & Hdb2 & HMC2 & _).
  exists d, y, w3. split_and!; [done.. | congruence |].
  rewrite (mc_entries_same_MC _ _ HMC2), mc_entries_refreshed.
  destruct (cache (_MC w2)) as [c |] eqn:Hc.
  - apply insert_id.
    assert (cached w2 t k = Some d) as Hca.
    { rewrite (cached_same_MC _ _ _ _ HMC), cached_mc_put. simpl.
      assert (is_Some (cache (_MC w))) as [c0 ->]; [| done].
      rewrite HMC in Hc. simpl in Hc.
      destruct (cache (_MC w)); [by eexists | done]. }
    unfold cached in Hca. rewrite Hc in Hca. simpl in Hca.
    unfold mc_entries. by rewrite Hc.
  - unfold mc_entries. by rewrite Hc.
Qed.

Lemma getitem_is_repeatable_witness :
  ∃ d y w3,
    getitem MongoDBBackend.users "alice" scenario2 = (Ok y, w3) ∧
    value_of MongoDBBackend.users "alice" d scenario2 (PRef 1) ∧
    value_of MongoDBBackend.users "alice" d w3 y ∧
    db w3 = db scenario1 ∧ mc_entries w3 = mc_entries scenario2.
Proof.
  apply (getitem_is_repeatable MongoDBBackend.users "alice" (PRef 1)
           scenario1 scenario2).
  exact scenario2_get.
Defined.

(** ** When the cache is on *)

(** X21. The backend has a cache after [__init__] exactly when it had one
    before or was given both a cache host and a cache port that Python takes
    for true: an empty host or the port 0 leave it without one. *)
Theorem backend_cache_on_iff
    (host : option string) (port : option Z) (dc : Z) (w : world) :
  is_Some (cache (_MC (MongoDBBackend.__init__ host port dc w))) ↔
  is_Some (cache (_MC w)) ∨
  ((∃ h, host = Some h ∧ h ≠ "") ∧ (∃ p, port = Some p ∧ p ≠ 0%Z)).
Proof.
  unfold MongoDBBackend.__init__, Memcache.connect. simpl.
  destruct host as [h |], port as [p |]; simpl;
    [| split; [by left | by intros [? | [[? [? ?]] [? [? ?]]]]]..].
  destruct (decide (h = "")) as [-> | Hh].
  { rewrite bool_decide_eq_false_2 by (by intros H; apply H). simpl.
    split; [by left | intros [? | [[? [[= <-] ?]] _]]; done]. }
  rewrite (bool_decide_eq_true_2 _ Hh). simpl.
  destruct (decide (p = 0%Z)) as [-> | Hp].
  { rewrite bool_decide_eq_false_2 by (by intros H; apply H). simpl.
    split; [by left | intros [? | [_ [? [[= <-] ?]]]]; done]. }
  rewrite (bool_decide_eq_true_2 _ Hp). simpl.
  split; [intros _; right; split; eauto | by eexists].
Qed.

(** ** A view given to another table *)

Section nested.
Implicit Types (t parent : table) (k root_key : string) (w : world)
  (d : record) (l : loc).

(** The write-back of a view that returned ended in a write of the view,
    with the key field of the parent, under its root key. *)
Lemma view_written_ok parent root_key l d w w2 :
  view_written parent root_key l d w = (Ok (), w2) →
  _class parent = MultiValue ∧
  parent_keyed parent root_key d !! _key_name parent = Some (SStr root_key) ∧
  ∃ w0, written parent root_key (parent_keyed parent root_key d) w0 = (Ok (), w2).
Proof.
  unfold view_written, parent_keyed. destruct (_class parent); [done |].
  destruct (d !! _key_name parent) as [x |] eqn:Hk.
  - case_bool_decide as Hx; [subst x | done]. intros Hw. eauto.
  - cbv zeta.
    destruct (written parent root_key _ (with_heap _ w)) as [[[] | e] w1]; [| done].
    intros Hw. split_and!; [done | apply lookup_insert_eq | eauto].
Qed.

Lemma cached_mc_del_None t k t' k' w :
  cached w t' k' = None → cached (mc_del t k w) t' k' = None.
Proof.
  unfold cached. simpl. destruct (cache (_MC w)); simpl; [| done].
  intros H. apply lookup_delete_None. by right.
Qed.

Lemma stored_written_other t k data parent root_key w :
  _coll parent ≠ _coll t →
  stored (snd (written t k data w)) parent root_key = stored w parent root_key.
Proof.
  intros Hne. unfold written.
  destruct (Collection.update _ _ _ _); simpl; [| done].
  unfold stored, coll_of. simpl. by rewrite lookup_total_insert_ne.
Qed.

End nested.

(** X22. A view given to another table is written back to its own: when
    [table[k] = view] returns for a view that lacks the key field of the
    table, the view was stored in its parent table too, under its root key
    and with the new key field, and the cache entry of the parent table for
    that key was deleted. *)
Theorem view_given_to_other_table_is_written_back
    (t parent : table) (k root_key : string) (l : loc) (d : record)
    (w w' : world) :
  _coll parent ≠ _coll t →
  heap w !! l = Some (MutableDict parent root_key d) →
  d !! _key_name t = None →
  setitem t k (PRef l) w = (Ok (), w') →
  ∃ dp, stored w' parent root_key = Some dp ∧
        d ⊆ dp ∧ dp !! _key_name t = Some (SStr k) ∧
        cached w' parent root_key = None ∧
        cached w' t k = None.
Proof.
  intros Hne Hl Hk. unfold setitem.
  destruct (_class t); [done |].
  rewrite (multi_setitem_run _ _ _ _ _ Hl). unfold multi_written.
  change (items (MutableDict parent root_key d)) with d. rewrite Hk.
  cbv zeta. set (d1 := <[_key_name t := SStr k]> d).
  simpl with_items. set (w1 := with_heap _ w).
  destruct (view_written parent root_key l d1 w1) as [[[] | e] w2] eqn:Hv; [| done].
  intros Hw.
  destruct (view_written_ok _ _ _ _ _ _ Hv) as (_ & Hpk & w0 & Hpw).
  destruct (written_ok _ _ _ _ _ Hpk Hpw) as (c' & dp & _ & _ & Hdp & Hs & Hc).
  assert (d1 !! _key_name t = Some (SStr k)) as Hk1 by apply lookup_insert_eq.
  pose proof (parent_keyed_lookup parent root_key _ _ _ Hk1) as Hk2.
  pose proof (stored_written_other t k (parent_keyed parent root_key d1)
                parent root_key w2 Hne) as Hs'.
  destruct (written_ok _ _ _ _ _ Hk2 Hw) as (c2 & d2 & _ & Hw' & _ & _ & Hc').
  rewrite Hw in Hs'. simpl in Hs'.
  exists dp. split_and!.
  - by rewrite Hs'.
  - etrans; [by apply (insert_subseteq d (_key_name t) (SStr k)) |].
    etrans; [apply parent_keyed_subseteq |]. by apply stored_as_subseteq.
  - by apply (stored_as_lookup _ _ _ _ Hdp).
  - rewrite Hw'. apply cached_mc_del_None.
    by change (cached (with_coll t c2 w2) parent root_key)
         with (cached w2 parent root_key).
  - done.
Qed.

Lemma view_given_to_other_table_is_written_back_witness :
  setitem MongoDBBackend.pending_registrations "code" (PRef 1) scenario2
    = (Ok (), scenario3) ∧
  stored scenario2 MongoDBBackend.users "alice" = Some alice_doc ∧
  ∃ dp, stored scenario3 MongoDBBackend.users "alice" = Some dp ∧
        alice_doc ⊆ dp ∧
        dp !! "pending_registration" = Some (SStr "code") ∧
        cached scenario3 MongoDBBackend.users "alice" = None ∧
        cached scenario3 MongoDBBackend.pending_registrations "code" = None.
Proof.
  split; [exact scenario3_set |]. split; [exact scenario2_stored |].
  apply (view_given_to_other_table_is_written_back
           MongoDBBackend.pending_registrations MongoDBBackend.users
           "code" "alice" 1 alice_doc scenario2 scenario3).
  - intros H. discriminate H.
  - exact scenario2_view.
  - vm_compute. reflexivity.
  - exact scenario3_set.
Defined.

(** X23. The two [__setitem__] call each other to a depth of three at
    most: with three nested calls or more left, [table[k] = r] does the
    same whatever the depth left, and so it never fails for the depth of
    the interpreter's stack; it raises for its asserts and for the store
    only. *)
Theorem setitem_nesting_bounded (t : table) (k : string) (r : pyval) (w : world) :
  (∀ n, setitem_at (3 + n) t k r w = setitem t k r w) ∧
  fst (setitem t k r w) ≠ Raise RecursionError ∧
  fst (setitem t k r w) ≠ Raise AttributeError ∧
  setitem_at 0 t k r w = (Raise RecursionError, w).
Proof.
  split_and!.
  - intros n. apply setitem_at_enough.
  - intros H. destruct (setitem t k r w) as [o w'] eqn:Hs. simpl in H. subst o.
    by destruct (setitem_raises _ _ _ _ _ _ Hs).
  - intros H. destruct (setitem t k r w) as [o w'] eqn:Hs. simpl in H. subst o.
    by destruct (setitem_raises _ _ _ _ _ _ Hs).
  - done.
Qed.
